(** * PPT Note Sync: the script segmenter and the slide note applier

    A shallow embedding of [parse_script] and [process_ppt] of [app.py],
    of the two functions that read the script file and of the handler of
    the button, with the library calls they rely on ([re.sub],
    [re.finditer], [str.strip], [int] with its limit on the number of
    digits, slicing, the python-pptx presentation object and the way it
    writes a text), and the properties of the stages. *)

From Stdlib Require Import Ascii String ZArith Lia.
From stdpp Require Import base option list strings gmap.

#[local] Set Warnings "-clear-no-such-hyp".

Local Open Scope Z_scope.

(** ** Text *)

(** A Python [str] is modelled as the list of its characters.  Characters
    are the code points below 256; the character classes below are the
    ones of Python 3 restricted to that range.  A text with a character
    beyond this range, where Unicode has further blanks, digits and
    variants of letters, is not a text of the model, and nothing is
    stated on it. *)
Abbreviation str := (list ascii).

(** The literal written as a Rocq string. *)
Definition lit (s : string) : str := list_ascii_of_string s.

(** The line feed character, written [\n] in the source. *)
Definition LF : ascii := ascii_of_nat 10.

(** The carriage return, which comes before the line feed at the end of
    the lines of many text files. *)
Definition CR : ascii := ascii_of_nat 13.

(** The tab, the vertical tab and the delete character. *)
Definition TAB : ascii := ascii_of_nat 9.

Module Py.

(** [str.isspace] on one character, which is also the class [\s] of
    [re] on a [str] pattern: TAB, LF, VT, FF, CR, the separators
    FS, GS, RS, US, the space, NEL and the no-break space. *)
Definition isspace (c : ascii) : bool :=
  let n := nat_of_ascii c in
  ((9 <=? n) && (n <=? 13) || (28 <=? n) && (n <=? 32)
   || (n =? 133) || (n =? 160))%nat.

(** The class [\d] of [re] on a [str] pattern: the decimal digits. *)
Definition isdecimal (c : ascii) : bool :=
  let n := nat_of_ascii c in ((48 <=? n) && (n <=? 57))%nat.

(** The value of a decimal digit. *)
Definition digit_value (c : ascii) : Z := Z.of_nat (nat_of_ascii c) - 48.

(** The folding of letter case under [re.IGNORECASE], on the ASCII
    letters.  The letters of the marker pattern, [S], [l], [i], [d] and
    [e], have no other variant below code point 256. *)
Definition lower (c : ascii) : ascii :=
  let n := nat_of_ascii c in
  if ((65 <=? n) && (n <=? 90))%nat then ascii_of_nat (n + 32) else c.

(** [s.lstrip()], [s.rstrip()] and [s.strip()] with no argument. *)
Fixpoint lstrip (s : str) : str :=
  match s with
  | c :: s' => if isspace c then lstrip s' else s
  | [] => []
  end.

Definition rstrip (s : str) : str := reverse (lstrip (reverse s)).

Definition strip (s : str) : str := rstrip (lstrip s).

(** The slice [s[start:stop]] for indices that are not negative; Python
    clamps both to the length and yields the empty string when
    [stop <= start]. *)
Definition slice (s : str) (start stop : nat) : str :=
  take (stop - start) (drop start s).

(** The exceptions that the modelled calls can raise. *)
Inductive exn : Set :=
| ValueError        (* int() on a string that is no decimal number, or too long *)
| IndexError        (* a list index out of range *)
| AttributeError    (* a method called on None *)
| PackageNotFoundError (* Presentation() on a file that cannot be opened *)
| IOError.          (* save() failed *)

(** [sys.get_int_max_str_digits()]: the number of digits that CPython
    converts to an integer, at its default.  The program does not change
    it. *)
Definition int_max_str_digits : Z := 4300.

(** [int(s)] on a string of decimal digits.  Signs, blanks and
    underscores, which [int] accepts too, cannot be captured by [\d+]
    and are rejected here.  Python's integers are unbounded, but [int]
    raises on a string of more than [int_max_str_digits] digits, zeros in
    front counted. *)
Fixpoint int_acc (acc : Z) (s : str) : exn + Z :=
  match s with
  | [] => inr acc
  | c :: s' =>
      if isdecimal c then int_acc (10 * acc + digit_value c) s'
      else inl ValueError
  end.

Definition int (s : str) : exn + Z :=
  if int_max_str_digits <? Z.of_nat (length s) then inl ValueError
  else match s with
       | [] => inl ValueError
       | _ => int_acc 0 s
       end.

End Py.

(** The error monad of the modelled code: [inl e] is a raised exception. *)
#[global] Instance exn_ret : MRet (sum Py.exn) := λ A x, inr x.
#[global] Instance exn_bind : MBind (sum Py.exn) :=
  λ A B f x, match x with inl e => inl e | inr a => f a end.

(** ** The two regular expressions *)

Module Re.

(** A match object of the marker pattern: [start()], [end()] and
    [group(1)]. *)
Record Match : Set := { m_start : nat; m_end : nat; group1 : str }.

(** *** [<[^>]+>] *)

(** The offset of the first [>] of [s]. *)
Fixpoint find_gt (s : str) : option nat :=
  match s with
  | [] => None
  | c :: s' => if Ascii.eqb c ">" then Some O else S <$> find_gt s'
  end.

(** The length of the match of [<[^>]+>] at the head of [s].  After
    [<], the class [[^>]+] takes every character up to the first [>],
    line feeds included, and needs at least one. *)
Definition tag_at (s : str) : option nat :=
  match s with
  | c :: rest =>
      if Ascii.eqb c "<" then
        match find_gt rest with
        | Some (S k) => Some (S (S (S k)))
        | _ => None
        end
      else None
  | [] => None
  end.

(** [re.sub(r'<[^>]+>', '', s)]: the text is scanned from the left; a
    match is dropped and the scan goes on behind it, any other
    character is kept.  [skip] counts the characters of the current
    match that are still to be dropped. *)
Fixpoint sub_tags_from (skip : nat) (s : str) : str :=
  match s with
  | [] => []
  | c :: s' =>
      match skip with
      | S k => sub_tags_from k s'
      | O =>
          match tag_at s with
          | Some n => sub_tags_from (Nat.pred n) s'
          | None => c :: sub_tags_from O s'
          end
      end
  end.

Definition sub_tags (s : str) : str := sub_tags_from O s.

(** *** [###\s*Slide\s*(\d+)] with [re.IGNORECASE] *)

(** The longest prefix of [s] in the class [p], and what follows it. *)
Fixpoint span (p : ascii → bool) (s : str) : str * str :=
  match s with
  | c :: s' =>
      if p c then let '(a, b) := span p s' in (c :: a, b) else ([], s)
  | [] => ([], [])
  end.

(** The literal [pat] at the head of [s], letter case ignored: what
    follows it. *)
Fixpoint literal (pat s : str) : option str :=
  match pat, s with
  | [], _ => Some s
  | p :: pat', c :: s' =>
      if Ascii.eqb (Py.lower p) (Py.lower c) then literal pat' s' else None
  | _ :: _, [] => None
  end.

(** The match of the marker pattern at the head of [s]: its length and
    its group 1.  The repetitions [\s*] and [\d+] are greedy, and what
    follows [\s*] in the pattern is never a blank, so that giving back
    characters never turns a failure into a match: each repetition
    takes its whole run. *)
Definition marker_at (s : str) : option (nat * str) :=
  r1 ← literal (lit "###") s;
  let '(ws1, r2) := span Py.isspace r1 in
  r3 ← literal (lit "Slide") r2;
  let '(ws2, r4) := span Py.isspace r3 in
  let '(digits, _) := span Py.isdecimal r4 in
  match digits with
  | [] => None
  | _ => Some (3 + length ws1 + 5 + length ws2 + length digits, digits)%nat
  end.

(** [list(re.finditer(pattern, s, re.IGNORECASE))]: the matches from
    the left, none overlapping another; the search for the next one
    starts where the last one ended.  [pos] is the offset of the head
    of [s] in the whole text. *)
Fixpoint finditer_from (pos skip : nat) (s : str) : list Match :=
  match s with
  | [] => []
  | _ :: s' =>
      match skip with
      | S k => finditer_from (S pos) k s'
      | O =>
          match marker_at s with
          | Some (n, d) =>
              {| m_start := pos; m_end := (pos + n)%nat; group1 := d |}
                :: finditer_from (S pos) (Nat.pred n) s'
          | None => finditer_from (S pos) O s'
          end
      end
  end.

Definition finditer (s : str) : list Match := finditer_from O O s.

End Re.

(** ** The script segmenter *)

(** [enumerate(l)], counting from [i]. *)
Fixpoint enumerate_from {A} (i : nat) (l : list A) : list (nat * A) :=
  match l with
  | [] => []
  | x :: l' => (i, x) :: enumerate_from (S i) l'
  end.

Definition enumerate {A} (l : list A) : list (nat * A) := enumerate_from O l.

(** The list index [l[i]], which raises when [i] is out of range. *)
Definition getitem {A} (l : list A) (i : nat) : Py.exn + A :=
  match l !! i with
  | Some x => inr x
  | None => inl Py.IndexError
  end.

(** The body of the loop [for i, match in enumerate(matches)] of
    [parse_script], on the entries [todo] that are left. *)
Fixpoint parse_loop (script_content : str) (matches : list Re.Match)
    (todo : list (nat * Re.Match)) (result : gmap Z str)
    : Py.exn + gmap Z str :=
  match todo with
  | [] => inr result
  | (i, m) :: todo' =>
      slide_num ← Py.int (Re.group1 m);
      let start := Re.m_end m in
      end_ ← (if (i + 1 <? length matches)%nat
              then next ← getitem matches (i + 1); mret (Re.m_start next)
              else mret (length script_content));
      let content := Py.strip (Py.slice script_content start end_) in
      parse_loop script_content matches todo' (<[slide_num := content]> result)
  end.

(** [parse_script]: the dictionary from slide numbers to note texts. *)
Definition parse_script (script_content : str) : Py.exn + gmap Z str :=
  let script_content := Re.sub_tags script_content in
  let matches := Re.finditer script_content in
  let result : gmap Z str := ∅ in
  match matches with
  | [] => inr (<[1 := Py.strip script_content]> result)
  | _ => parse_loop script_content matches (enumerate matches) result
  end.

(** ** The slide note applier *)

Module Pptx.

(** A slide, as far as its speaker notes go.  [Some t]: the notes text
    frame of the slide reads [t] (a slide that has no notes page yet
    gets an empty one when [notes_slide] is first read).  [None]: the
    notes page has no notes placeholder, [notes_text_frame] is [None]
    and every method called on it raises. *)
Abbreviation Slide := (option str).

(** A presentation package: its slides in order, and whether it can be
    written out again. *)
Record Package : Set := { slides : list Slide; writable : bool }.

(** What [save] writes, as a reader of the bytes sees it: the slides
    and their notes. *)
Abbreviation bytes := (list Slide).

(** [Presentation(pptx_file)]: [None] is an upload that python-pptx
    cannot open. *)
Definition Presentation (pptx_file : option Package) : Py.exn + Package :=
  match pptx_file with
  | Some prs => inr prs
  | None => inl Py.PackageNotFoundError
  end.

(** [text_frame.clear()], on the notes text frame of a slide. *)
Definition clear (slide : Slide) : Py.exn + Slide :=
  match slide with
  | Some _ => inr (Some [])
  | None => inl Py.AttributeError
  end.

(** The characters that python-pptx does not write into a run as they
    are: the control characters below the space, other than the tab, the
    line feed and the vertical tab. *)
Definition escaped (c : ascii) : bool :=
  let n := nat_of_ascii c in ((n <=? 8) || (12 <=? n) && (n <=? 31))%nat.

(** The hexadecimal digit of [n < 16], in upper case. *)
Definition hex_digit (n : nat) : ascii :=
  ascii_of_nat (if n <? 10 then 48 + n else 55 + n)%nat.

(** ["_x%04X_" % ord(c)], the form in which an escaped character is
    written. *)
Definition escape (c : ascii) : str :=
  let n := nat_of_ascii c in
  lit "_x"
    ++ [hex_digit (n / 4096 mod 16)%nat; hex_digit (n / 256 mod 16)%nat;
        hex_digit (n / 16 mod 16)%nat; hex_digit (n mod 16)%nat]
    ++ lit "_".

(** The text that [text_frame.text] reads after [text_frame.text =
    content].  The setter cuts [content] into paragraphs at the line
    feeds and into runs at the vertical tabs, and escapes the text of
    every run; the getter puts the line feeds and the vertical tabs
    back.  What is read is [content] with every escaped character in
    its written form. *)
Fixpoint written (content : str) : str :=
  match content with
  | [] => []
  | c :: content' =>
      (if escaped c then escape c else [c]) ++ written content'
  end.

(** [text_frame.text = content], on the notes text frame of a slide. *)
Definition set_text (content : str) (slide : Slide) : Py.exn + Slide :=
  match slide with
  | Some _ => inr (Some (written content))
  | None => inl Py.AttributeError
  end.

(** [prs.save(output)] followed by [output.getvalue()]. *)
Definition save (prs : Package) : Py.exn + bytes :=
  if writable prs then inr (slides prs) else inl Py.IOError.

End Pptx.

(** The loop [for slide_num, content in script_data.items()] of
    [process_ppt] on the entries [items] that are left; the slides are
    changed in place. *)
Fixpoint apply_items (items : list (Z * str)) (slides : list Pptx.Slide)
    (processed_count : Z) : Py.exn + (list Pptx.Slide * Z) :=
  match items with
  | [] => inr (slides, processed_count)
  | (slide_num, content) :: items' =>
      let slide_index := slide_num - 1 in
      if (slide_index <? 0) || (slide_index >=? Z.of_nat (length slides))
      then apply_items items' slides processed_count
      else
        slide ← getitem slides (Z.to_nat slide_index);
        slide ← Pptx.clear slide;
        slide ← Pptx.set_text content slide;
        apply_items items' (<[Z.to_nat slide_index := slide]> slides)
          (processed_count + 1)
  end.

(** The [try] block of [process_ppt].  The entries are visited in the
    order of [map_to_list]; Python visits them in the order of their
    insertion, and the loop returns the same in any order, as is proved
    below. *)
Definition process_ppt_try (pptx_file : option Pptx.Package)
    (script_data : gmap Z str) : Py.exn + (Pptx.bytes * Z) :=
  prs ← Pptx.Presentation pptx_file;
  '(slides, processed_count) ←
    apply_items (map_to_list script_data) (Pptx.slides prs) 0;
  output ← Pptx.save {| Pptx.slides := slides;
                        Pptx.writable := Pptx.writable prs |};
  mret (output, processed_count).

(** [process_ppt]: the pair that is returned, and the errors shown with
    [st.error]. *)
Definition process_ppt (pptx_file : option Pptx.Package)
    (script_data : gmap Z str) : (option Pptx.bytes * Z) * list Py.exn :=
  match process_ppt_try pptx_file script_data with
  | inr (output, processed_count) => ((Some output, processed_count), [])
  | inl e => ((None, 0), [e])
  end.

(** The two stages, one after the other: the segmenter, then the applier
    on its dictionary.  The page runs them so on a script text that is
    not empty, and stops before the segmenter on an empty one. *)
Definition sync (pptx_file : option Pptx.Package) (script_text : str)
    : Py.exn + ((option Pptx.bytes * Z) * list Py.exn) :=
  script_data ← parse_script script_text;
  mret (process_ppt pptx_file script_data).

(** ** The page *)

(** The encodings that [extract_text_from_txt] tries, in its order. *)
Inductive encoding : Set := utf_8 | gbk | gb2312 | utf_16.

Definition encodings : list encoding := [utf_8; gbk; gb2312; utf_16].

Module St.

(** The messages of the page. *)
Inductive message : Set :=
| docx_unreadable              (* extract_text_from_docx: the docx cannot be read *)
| encoding_unknown             (* extract_text_from_txt: no encoding fits *)
| pptx_missing                 (* no presentation was uploaded *)
| script_missing               (* no script was uploaded *)
| script_unreadable            (* the script text is empty *)
| processing (e : Py.exn)      (* process_ppt: the error that it caught *)
| failed (e : Py.exn).         (* the handler of the button: the error that it caught *)

(** What a click adds to the page: [st.error], the success box with the
    count, [st.download_button] with the data. *)
Inductive element : Set :=
| error (m : message)
| success_box (count : Z)
| download_button (data : list (option str)).

End St.

(** [sep.join(l)]. *)
Fixpoint join (sep : str) (l : list str) : str :=
  match l with
  | [] => []
  | [x] => x
  | x :: l' => x ++ sep ++ join sep l'
  end.

(** [s.endswith(suffix)]. *)
Definition endswith (s suffix : str) : bool :=
  bool_decide (drop (length s - length suffix) s = suffix).

Section Page.

(** [file_bytes.decode(encoding)], [None] when it raises.  The codecs
    are those of Python and are not modelled. *)
Variable decode : encoding → list Byte.byte → option str.

(** The texts of the paragraphs of [Document(io.BytesIO(file_bytes))],
    [None] when python-docx raises. *)
Variable Document : list Byte.byte → option (list str).

(** [extract_text_from_docx]: the text, and what it shows. *)
Definition extract_text_from_docx (file_bytes : list Byte.byte)
    : str * list St.element :=
  match Document file_bytes with
  | Some full_text => (join [LF] full_text, [])
  | None => ([], [St.error St.docx_unreadable])
  end.

(** The loop [for encoding in ...] of [extract_text_from_txt]: the first
    decoding that does not raise. *)
Fixpoint decode_first (l : list encoding) (file_bytes : list Byte.byte)
    : option str :=
  match l with
  | [] => None
  | encoding :: l' =>
      match decode encoding file_bytes with
      | Some text => Some text
      | None => decode_first l' file_bytes
      end
  end.

(** [extract_text_from_txt]: the text, and what it shows. *)
Definition extract_text_from_txt (file_bytes : list Byte.byte)
    : str * list St.element :=
  match decode_first encodings file_bytes with
  | Some text => (text, [])
  | None => ([], [St.error St.encoding_unknown])
  end.

(** The handler of the button.  An upload is [None] when no file was
    chosen; the presentation is then the file as [process_ppt] takes it,
    the script its name and its bytes.  The result of [process_ppt] is
    tested with [if result]: the bytes of a saved package are never
    empty, so that the test holds exactly when bytes are returned. *)
Definition on_click (pptx_file : option (option Pptx.Package))
    (script_file : option (str * list Byte.byte)) : list St.element :=
  match pptx_file with
  | None => [St.error St.pptx_missing]
  | Some pptx_file =>
      match script_file with
      | None => [St.error St.script_missing]
      | Some (name, script_content) =>
          let '(script_text, shown) :=
            if endswith name (lit ".docx")
            then extract_text_from_docx script_content
            else extract_text_from_txt script_content in
          match script_text with
          | [] => shown ++ [St.error St.script_unreadable]
          | _ =>
              match parse_script script_text with
              | inl e => shown ++ [St.error (St.failed e)]
              | inr script_data =>
                  let '((result, count), errors) :=
                    process_ppt pptx_file script_data in
                  shown ++ ((λ e, St.error (St.processing e)) <$> errors)
                    ++ match result with
                       | Some data =>
                           [St.success_box count; St.download_button data]
                       | None => []
                       end
              end
          end
      end
  end.

End Page.

(** * The vocabulary of the properties *)

(** The 256 characters, one by one: a fact on the character classes is
    checked by evaluation. *)
Ltac each_character c := destruct c as [[] [] [] [] [] [] [] []]; vm_compute.

(** ** The applier *)

(** Slide number [k] names one of [N] slides. *)
Definition in_range (N : nat) (k : Z) : Prop := 1 ≤ k ≤ Z.of_nat N.

#[global] Instance in_range_dec N k : Decision (in_range N k).
Proof. unfold in_range. apply _. Defined.

(** Slide number [k] names a slide whose notes cannot be written. *)
Definition frame_missing (slides : list (option str)) (k : Z) : Prop :=
  slides !! Z.to_nat (k - 1) = Some None.

#[global] Instance frame_missing_dec slides k :
  Decision (frame_missing slides k).
Proof. unfold frame_missing. apply _. Defined.

(** Every entry of [items] that names a slide names one that can be
    written. *)
Definition ready (slides : list (option str)) (items : list (Z * str))
    : Prop :=
  Forall (λ kv, in_range (length slides) kv.1 → ¬ frame_missing slides kv.1)
    items.

(** The entries of [items] that name a slide. *)
Definition hits (N : nat) (items : list (Z * str)) : list (Z * str) :=
  filter (λ kv, in_range N kv.1) items.

(** The notes after every entry of [items] that names a slide has been
    written, in the order of [items]. *)
Definition write_notes (items : list (Z * str)) (slides : list (option str))
    : list (option str) :=
  foldl (λ sl kv, if decide (in_range (length sl) kv.1)
                  then <[Z.to_nat (kv.1 - 1) := Some (Pptx.written kv.2)]> sl
                  else sl)
    slides items.

(** The entries of [d] that name one of [N] slides. *)
Definition entries_in_range (N : nat) (d : gmap Z str) : gmap Z str :=
  filter (λ kv, in_range N kv.1) d.

(** The notes once [d] is applied: slide [j] (from 0) takes the text
    that [d] has for number [j + 1], as python-pptx writes it, and keeps
    its notes when [d] has none. *)
Definition notes_after (d : gmap Z str) (slides : list (option str))
    : list (option str) :=
  imap (λ j old, match d !! (Z.of_nat j + 1) with
                 | Some v => Some (Pptx.written v)
                 | None => old
                 end) slides.



(** Some entry of [d] names a slide whose notes cannot be written. *)
Definition write_fails (d : gmap Z str) (slides : list (option str)) : Prop :=
  ∃ k v, d !! k = Some v ∧ in_range (length slides) k
         ∧ frame_missing slides k.

(** ** Tags *)

(** The words of the language of [<[^>]+>]. *)
Definition is_tag (w : str) : Prop :=
  ∃ body, w = "<"%char :: body ++ [">"%char] ∧ body ≠ [] ∧ ">"%char ∉ body.

(** [v] occurs in [t] as a substring. *)
Definition substring (v t : str) : Prop := ∃ pre post, t = pre ++ v ++ post.

(** [t] has a substring that matches [<[^>]+>]. *)
Definition has_tag (t : str) : Prop := ∃ w, is_tag w ∧ substring w t.

(** No suffix of [t] starts with a match of [<[^>]+>]. *)
Fixpoint tag_free (t : str) : Prop :=
  match t with
  | [] => True
  | _ :: t' => Re.tag_at t = None ∧ tag_free t'
  end.

(** ** Markers *)

(** The decimal number that a string of digits writes. *)
Definition digits_value (d : str) : Z :=
  foldl (λ acc c, 10 * acc + Py.digit_value c) 0 d.

(** The slide number that a marker declares. *)
Definition slide_number (m : Re.Match) : Z := digits_value (Re.group1 m).

(** [pat] and [w] are the same word for the matcher, which compares the
    folded letters. *)
Definition same_letters (pat w : str) : Prop :=
  Forall2 (λ p c, Py.lower p = Py.lower c) pat w.

(** The blanks, written out: TAB, LF, VT, FF, CR, FS, GS, RS, US, the
    space, NEL and the no-break space. *)
Definition blanks : str :=
  ascii_of_nat <$> [9; 10; 11; 12; 13; 28; 29; 30; 31; 32; 133; 160]%nat.

(** The decimal digits, written out. *)
Definition digits : str := lit "0123456789".

(** The word [slide], each letter in one of its two cases. *)
Definition slide_word (word : str) : Prop :=
  Forall2 (λ c cases, c ∈ cases) word
    [lit "Ss"; lit "Ll"; lit "Ii"; lit "Dd"; lit "Ee"].

(** The words of the language of [###\s*Slide\s*(\d+)] under
    [re.IGNORECASE], with the digits of group 1: three [#], blanks or
    none, the word [slide], blanks or none, and digits, at least one. *)
Definition is_marker (w d : str) : Prop :=
  ∃ ws1 word ws2,
    w = lit "###" ++ ws1 ++ word ++ ws2 ++ d
    ∧ Forall (.∈ blanks) ws1 ∧ slide_word word ∧ Forall (.∈ blanks) ws2
    ∧ Forall (.∈ digits) d ∧ d ≠ [].

(** [int] accepts the digits of the match [m]: they are no more than
    CPython converts. *)
Definition int_accepts (m : Re.Match) : Prop :=
  Z.of_nat (length (Re.group1 m)) ≤ Py.int_max_str_digits.

#[global] Instance int_accepts_dec m : Decision (int_accepts m).
Proof. unfold int_accepts. apply _. Defined.

(** [int] accepts the digits of every marker of the script [s]. *)
Definition convertible (s : str) : Prop :=
  Forall int_accepts (Re.finditer (Re.sub_tags s)).

#[global] Instance convertible_dec s : Decision (convertible s).
Proof. unfold convertible. apply _. Defined.

(** The matches [ms] lie between [lo] and [hi], one behind the other. *)
Fixpoint chain (lo hi : nat) (ms : list Re.Match) : Prop :=
  match ms with
  | [] => True
  | m :: ms' =>
      (lo ≤ Re.m_start m)%nat ∧ (Re.m_start m < Re.m_end m)%nat
      ∧ (Re.m_end m ≤ hi)%nat ∧ chain (Re.m_end m) hi ms'
  end.

(** [m] is a match of the marker pattern in [t]. *)
Definition marker_of (t : str) (m : Re.Match) : Prop :=
  Re.marker_at (drop (Re.m_start m) t)
  = Some ((Re.m_end m - Re.m_start m)%nat, Re.group1 m).

(** ** Segments *)

(** [v] neither starts nor ends with a blank. *)
Definition trimmed (v : str) : Prop :=
  (∀ c v', v = c :: v' → ¬ Py.isspace c)
  ∧ (∀ c v', v = v' ++ [c] → ¬ Py.isspace c).


(** Where the text of marker [i] ends: at the next marker, or at the
    end of the text behind the last marker. *)
Definition segment_end (t : str) (ms : list Re.Match) (i : nat) : nat :=
  match ms !! S i with
  | Some next => Re.m_start next
  | None => length t
  end.

(** The note text of marker [i], which is [m]. *)
Definition note_text (t : str) (ms : list Re.Match) (i : nat) (m : Re.Match)
    : str :=
  Py.strip (Py.slice t (Re.m_end m) (segment_end t ms i)).

(** The assignment [result[slide_num] = content] for marker [i]. *)
Definition assign (t : str) (ms : list Re.Match) (result : gmap Z str)
    (im : nat * Re.Match) : gmap Z str :=
  <[slide_number im.2 := note_text t ms im.1 im.2]> result.

(** The dictionary built from the markers [ms] of [t], from the left. *)
Definition segmented (t : str) (ms : list Re.Match) : gmap Z str :=
  foldl (assign t ms) ∅ (enumerate ms).

(** ** Further vocabulary *)

(** The match [m], [k] characters further to the right. *)
Definition shift (k : nat) (m : Re.Match) : Re.Match :=
  {| Re.m_start := (k + Re.m_start m)%nat; Re.m_end := (k + Re.m_end m)%nat;
     Re.group1 := Re.group1 m |}.

(** The script text that the handler of the button reads from the upload
    [name], [content], and what reading it shows. *)
Definition extracted (decode : encoding → list Byte.byte → option str)
    (Document : list Byte.byte → option (list str))
    (name : str) (content : list Byte.byte) : str * list St.element :=
  if endswith name (lit ".docx")
  then extract_text_from_docx Document content
  else extract_text_from_txt decode content.

(** The upload is a package that [process_ppt] can bring to an end
    with [d]. *)
Definition goes_through (pf : option Pptx.Package) (d : gmap Z str) : Prop :=
  ∃ prs, pf = Some prs ∧ Pptx.writable prs = true
         ∧ ¬ write_fails d (Pptx.slides prs).

(** The click shows errors and nothing else. *)
Definition errors_only (l : list St.element) : Prop :=
  l ≠ [] ∧ Forall (λ x, ∃ m, x = St.error m) l.

(** ** The scripts of the end-to-end scenarios *)

Definition scenario1_script : str :=
  lit "### Slide 1" ++ LF :: lit "Hello"
    ++ LF :: lit "### Slide 2" ++ LF :: lit "World".

Definition scenario2_script : str := lit "Just some text, no markers".

Definition scenario3_script : str := lit "### Slide 5" ++ LF :: lit "Only this".


(** A package that can be written, with the slides [l]. *)
Definition deck (l : list (option str)) : option Pptx.Package :=
  Some {| Pptx.slides := l; Pptx.writable := true |}.

(** * The model on examples *)

Example strip_example : Py.strip (lit "  a b " ++ [LF]) = lit "a b".
Proof. reflexivity. Qed.

Example int_example : Py.int (lit "0042") = inr 42.
Proof. reflexivity. Qed.

Example written_example :
  Pptx.written (TAB :: lit "a" ++ CR :: LF :: lit "b")
  = TAB :: lit "a_x000D_" ++ LF :: lit "b".
Proof. reflexivity. Qed.

Example sub_tags_example :
  Re.sub_tags (lit "a<b>c<>d<e") = lit "ac<>d<e".
Proof. reflexivity. Qed.

Example finditer_example :
  Re.finditer (lit "####slide12x") =
  [{| Re.m_start := 1; Re.m_end := 11; Re.group1 := lit "12" |}].
Proof. reflexivity. Qed.

Example scenario1 :
  sync (deck [Some []; Some []]) scenario1_script
  = inr ((Some [Some (lit "Hello"); Some (lit "World")], 2), []).
Proof. vm_compute. reflexivity. Qed.

Example scenario3 :
  parse_script scenario3_script = inr {[ 5 := lit "Only this" ]}
  ∧ sync (deck [Some []; Some []]) scenario3_script
    = inr ((Some [Some []; Some []], 0), []).
Proof. split; vm_compute; reflexivity. Qed.

(** * Properties of the applier *)

Section Applier.

Implicit Types (items : list (Z * str)) (slides : list Pptx.Slide).
Implicit Types (k : Z) (v : str) (c : Z) (j : nat).

Lemma guard_in_range slides k :
  (k - 1 <? 0) || (k - 1 >=? Z.of_nat (length slides)) = false
  ↔ in_range (length slides) k.
Proof. unfold in_range. rewrite orb_false_iff. lia. Qed.

Lemma apply_items_skip items slides c k v :
  ¬ in_range (length slides) k →
  apply_items ((k, v) :: items) slides c = apply_items items slides c.
Proof.
  intros Hk. cbn [apply_items].
  destruct (_ || _) eqn:E; [done|]. by apply guard_in_range in E.
Qed.

Lemma apply_items_hit items slides c k v t :
  in_range (length slides) k →
  slides !! Z.to_nat (k - 1) = Some (Some t) →
  apply_items ((k, v) :: items) slides c
  = apply_items items (<[Z.to_nat (k - 1) := Some (Pptx.written v)]> slides)
      (c + 1).
Proof.
  intros Hk Ht. apply guard_in_range in Hk. cbn [apply_items].
  rewrite Hk. unfold getitem. rewrite Ht. done.
Qed.

Lemma apply_items_raise items slides c k v :
  in_range (length slides) k →
  frame_missing slides k →
  apply_items ((k, v) :: items) slides c = inl Py.AttributeError.
Proof.
  intros Hk Ht. apply guard_in_range in Hk. cbn [apply_items].
  rewrite Hk. unfold getitem. rewrite Ht. done.
Qed.

Lemma in_range_lookup slides k :
  in_range (length slides) k → is_Some (slides !! Z.to_nat (k - 1)).
Proof. unfold in_range. intros ?. apply lookup_lt_is_Some. lia. Qed.

Lemma ready_frame slides k :
  in_range (length slides) k → ¬ frame_missing slides k →
  ∃ t, slides !! Z.to_nat (k - 1) = Some (Some t).
Proof.
  intros [[t|] Ht]%in_range_lookup Hm; [eauto|]. by destruct Hm.
Qed.

Lemma frame_missing_insert slides k k' v :
  frame_missing (<[Z.to_nat (k - 1) := Some v]> slides) k'
  → frame_missing slides k'.
Proof.
  unfold frame_missing.
  destruct (decide (Z.to_nat (k - 1) = Z.to_nat (k' - 1))) as [<-|Hne].
  - intros H. pose proof (lookup_lt_Some _ _ _ H) as Hlt.
    rewrite length_insert in Hlt.
    by rewrite list_lookup_insert_eq in H.
  - by rewrite list_lookup_insert_ne.
Qed.

Lemma ready_insert slides items k v :
  ready slides items → ready (<[Z.to_nat (k - 1) := Some v]> slides) items.
Proof.
  unfold ready. intros Hr. eapply Forall_impl; [exact Hr|].
  intros [k' v'] H Hk' Hm. cbn in *.
  rewrite length_insert in Hk'. apply (H Hk').
  by eapply frame_missing_insert.
Qed.

Lemma write_notes_cons items slides k v :
  write_notes ((k, v) :: items) slides
  = write_notes items
      (if decide (in_range (length slides) k)
       then <[Z.to_nat (k - 1) := Some (Pptx.written v)]> slides else slides).
Proof. done. Qed.

Lemma length_write_notes items slides :
  length (write_notes items slides) = length slides.
Proof.
  revert slides. induction items as [|[k v] items IH]; intros slides; [done|].
  rewrite write_notes_cons, IH. case_decide; [apply length_insert|done].
Qed.

(** When every targeted slide can be written, the loop ends with the
    notes of [write_notes] and has counted the entries that name a
    slide. *)
Lemma apply_items_ready items slides c :
  ready slides items →
  apply_items items slides c
  = inr (write_notes items slides,
         c + Z.of_nat (length (hits (length slides) items))).
Proof.
  revert slides c. induction items as [|[k v] items IH]; intros slides c Hr.
  { cbn. do 2 f_equal. lia. }
  apply Forall_cons in Hr as [Hk Hr]. cbn in Hk.
  rewrite write_notes_cons. unfold hits. rewrite filter_cons. cbn [fst].
  case_decide as Hin.
  - destruct (ready_frame slides k) as [t Ht]; [auto..|].
    rewrite (apply_items_hit _ _ _ _ _ t), IH by auto using ready_insert.
    rewrite length_insert. cbn [length]. unfold hits. do 2 f_equal. lia.
  - rewrite apply_items_skip, IH by done. done.
Qed.

(** When some targeted slide cannot be written, the loop raises. *)
Lemma apply_items_not_ready items slides c :
  ¬ ready slides items → apply_items items slides c = inl Py.AttributeError.
Proof.
  revert slides c. induction items as [|[k v] items IH]; intros slides c Hr.
  { destruct Hr. constructor. }
  destruct (decide (in_range (length slides) k)) as [Hin|Hout].
  - destruct (decide (frame_missing slides k)) as [Hm|Hm].
    { by apply apply_items_raise. }
    destruct (ready_frame slides k) as [t Ht]; [auto..|].
    rewrite (apply_items_hit _ _ _ _ _ t) by done. apply IH.
    intros Hr'. apply Hr. constructor; [done|].
    unfold ready in *. eapply Forall_impl; [exact Hr'|].
    intros [k' v'] H Hk' Hm'.
    cbn in *. rewrite length_insert in H.
    destruct (decide (Z.to_nat (k - 1) = Z.to_nat (k' - 1))) as [E|E].
    + unfold frame_missing in Hm'. rewrite <-E in Hm'. congruence.
    + apply H; [done|]. unfold frame_missing.
      by rewrite list_lookup_insert_ne.
  - rewrite apply_items_skip by done. apply IH.
    intros Hr'. apply Hr. constructor; [done|done].
Qed.

End Applier.

(** ** The loop on the entries of a dictionary *)

Section ApplierMap.

Implicit Types (d : gmap Z str) (prs : Pptx.Package).
Implicit Types (slides : list (option str)) (k : Z) (v : str) (j : nat).

Lemma ready_map d slides :
  ready slides (map_to_list d) ↔ ¬ write_fails d slides.
Proof.
  unfold ready, write_fails. rewrite Forall_forall. split.
  - intros H (k & v & Hkv & Hin & Hm).
    apply elem_of_map_to_list in Hkv. by apply (H _ Hkv).
  - intros H [k v] Hkv%elem_of_map_to_list Hin Hm. naive_solver.
Qed.

Lemma write_notes_other items slides j :
  (∀ v, (Z.of_nat j + 1, v) ∉ items) →
  write_notes items slides !! j = slides !! j.
Proof.
  revert slides. induction items as [|[k v] items IH]; intros slides Hj.
  { done. }
  rewrite write_notes_cons, IH.
  - case_decide as Hin; [|done]. apply list_lookup_insert_ne.
    intros <-. apply (Hj v). unfold in_range in Hin.
    replace (Z.of_nat (Z.to_nat (k - 1)) + 1) with k by lia. left.
  - intros v' Hv'. apply (Hj v'). by right.
Qed.

Lemma write_notes_hit items slides k v :
  NoDup items.*1 → (k, v) ∈ items → in_range (length slides) k →
  write_notes items slides !! Z.to_nat (k - 1) = Some (Some (Pptx.written v)).
Proof.
  revert slides. induction items as [|[k' v'] items IH]; intros slides Hnd Hkv Hin.
  { by apply elem_of_nil in Hkv. }
  apply NoDup_cons in Hnd as [Hk' Hnd]. cbn in Hk'.
  rewrite write_notes_cons. apply elem_of_cons in Hkv as [[= <- <-]|Hkv].
  - rewrite decide_True by done. rewrite write_notes_other.
    + apply list_lookup_insert_eq. unfold in_range in Hin. lia.
    + intros v2 Hv2. apply Hk'. apply list_elem_of_fmap.
      exists (k, v2). split; [done|].
      unfold in_range in Hin.
      by replace (Z.of_nat (Z.to_nat (k - 1)) + 1) with k in Hv2 by lia.
  - apply IH; [done..|]. case_decide; [by rewrite length_insert|done].
Qed.

Lemma write_notes_map d slides :
  write_notes (map_to_list d) slides = notes_after d slides.
Proof.
  apply list_eq. intros j. unfold notes_after. rewrite list_lookup_imap.
  destruct (d !! (Z.of_nat j + 1)) as [v|] eqn:Hd.
  - destruct (slides !! j) as [old|] eqn:Hj; cbn.
    + apply lookup_lt_Some in Hj as Hlt.
      replace j with (Z.to_nat ((Z.of_nat j + 1) - 1)) at 1 by lia.
      apply write_notes_hit.
      * apply NoDup_fst_map_to_list.
      * by apply elem_of_map_to_list.
      * unfold in_range. lia.
    + apply lookup_ge_None. rewrite length_write_notes.
      by apply lookup_ge_None.
  - rewrite write_notes_other; [by destruct (slides !! j)|].
    intros v Hv%elem_of_map_to_list. congruence.
Qed.

(** X8. The order in which the entries are visited is of no
    consequence: for entries with distinct keys, the loop of
    [process_ppt] returns the same slides and the same count, or raises
    the same error, in whatever order it visits them.  Python visits a
    dictionary in the order of insertion, [map_to_list] has an order of
    its own, and both give the same result. *)
Lemma apply_items_Permutation items items' slides (c : Z) :
  NoDup items.*1 → items ≡ₚ items' →
  apply_items items slides c = apply_items items' slides c.
Proof.
  intros Hnd Hp.
  assert (NoDup items'.*1) as Hnd' by by rewrite <-Hp.
  destruct (decide (ready slides items)) as [Hr|Hr].
  - assert (ready slides items') as Hr' by (unfold ready in *; by rewrite <-Hp).
    rewrite !apply_items_ready by done. do 2 f_equal.
    + apply list_eq. intros j.
      destruct (decide (j < length slides)%nat) as [Hj|Hj].
      * destruct (decide (Z.of_nat j + 1 ∈ items.*1)) as [Hk|Hk].
        -- apply list_elem_of_fmap in Hk as ([k v] & Hk & Hkv).
           cbn in Hk. subst k.
           replace j with (Z.to_nat (Z.of_nat j + 1 - 1)) by lia.
           rewrite !(write_notes_hit _ _ _ v);
             [done|done|by rewrite <-Hp|unfold in_range; lia
             |done|done|unfold in_range; lia].
        -- rewrite !write_notes_other; [done|..]; intros v Hv; apply Hk;
             apply list_elem_of_fmap; exists (Z.of_nat j + 1, v);
             (split; [done|]); [by rewrite Hp|done].
      * rewrite !(proj2 (lookup_ge_None _ _)); [done|..];
          rewrite length_write_notes; lia.
    + unfold hits. by rewrite Hp.
  - assert (¬ ready slides items') as Hr'
      by (unfold ready in *; by rewrite <-Hp).
    by rewrite !apply_items_not_ready.
Qed.

Lemma map_to_list_filter_Permutation (P : Z * str → Prop)
    `{!∀ x, Decision (P x)} d :
  map_to_list (filter P d) ≡ₚ filter P (map_to_list d).
Proof.
  apply NoDup_Permutation.
  - apply NoDup_map_to_list.
  - apply NoDup_filter, NoDup_map_to_list.
  - intros [k v]. rewrite elem_of_map_to_list, map_lookup_filter_Some,
      list_elem_of_filter, elem_of_map_to_list. naive_solver.
Qed.

Lemma hits_map N d :
  length (hits N (map_to_list d)) = size (entries_in_range N d).
Proof.
  unfold hits, entries_in_range.
  by rewrite <-length_map_to_list, map_to_list_filter_Permutation.
Qed.

(** At most one entry for each slide. *)
Lemma size_entries_in_range N d : (size (entries_in_range N d) ≤ N)%nat.
Proof.
  rewrite <-(size_dom (D:=gset Z)).
  transitivity (size (list_to_set (C:=gset Z) (seqZ 1 (Z.of_nat N)))).
  - apply subseteq_size. intros k [v Hv]%elem_of_dom.
    apply map_lookup_filter_Some in Hv as [_ Hin].
    apply elem_of_list_to_set, elem_of_seqZ. unfold in_range in Hin.
    cbn in Hin. lia.
  - rewrite size_list_to_set by apply NoDup_seqZ.
    rewrite length_seqZ. lia.
Qed.

Lemma size_entries_in_range_le N d :
  (size (entries_in_range N d) ≤ size d)%nat.
Proof. apply map_size_filter. Qed.

Lemma entries_in_range_idemp N d :
  entries_in_range N (entries_in_range N d) = entries_in_range N d.
Proof.
  unfold entries_in_range. rewrite map_filter_filter.
  apply map_filter_ext. naive_solver.
Qed.

Lemma write_fails_in_range d slides :
  write_fails (entries_in_range (length slides) d) slides
  ↔ write_fails d slides.
Proof.
  unfold write_fails, entries_in_range.
  setoid_rewrite map_lookup_filter_Some. naive_solver.
Qed.

Lemma notes_after_in_range d slides :
  notes_after (entries_in_range (length slides) d) slides
  = notes_after d slides.
Proof.
  apply list_eq. intros j. unfold notes_after. rewrite !list_lookup_imap.
  destruct (slides !! j) as [old|] eqn:Hj; [cbn|done].
  apply lookup_lt_Some in Hj. unfold entries_in_range.
  destruct (d !! (Z.of_nat j + 1)) as [v|] eqn:Hd.
  - erewrite (proj2 (map_lookup_filter_Some _ _ _ _)); [done|].
    split; [done|]. unfold in_range. cbn. lia.
  - by rewrite map_lookup_filter_None_2 by auto.
Qed.

(** *** What [process_ppt] returns *)

Lemma process_ppt_unopened d :
  process_ppt None d = ((None, 0), [Py.PackageNotFoundError]).
Proof. done. Qed.

Lemma process_ppt_write_fails prs d :
  write_fails d (Pptx.slides prs) →
  process_ppt (Some prs) d = ((None, 0), [Py.AttributeError]).
Proof.
  intros H. unfold process_ppt, process_ppt_try. cbn.
  rewrite apply_items_not_ready; [done|]. rewrite ready_map. tauto.
Qed.

Lemma process_ppt_save_fails prs d :
  ¬ write_fails d (Pptx.slides prs) → Pptx.writable prs = false →
  process_ppt (Some prs) d = ((None, 0), [Py.IOError]).
Proof.
  intros H Hw. unfold process_ppt, process_ppt_try. cbn.
  rewrite apply_items_ready by by apply ready_map.
  cbn. unfold Pptx.save. cbn. by rewrite Hw.
Qed.

Lemma process_ppt_ok prs d :
  ¬ write_fails d (Pptx.slides prs) → Pptx.writable prs = true →
  process_ppt (Some prs) d
  = ((Some (notes_after d (Pptx.slides prs)),
      Z.of_nat (size (entries_in_range (length (Pptx.slides prs)) d))), []).
Proof.
  intros H Hw. unfold process_ppt, process_ppt_try. cbn.
  rewrite apply_items_ready by by apply ready_map.
  cbn. unfold Pptx.save. cbn. rewrite Hw. cbn.
  by rewrite write_notes_map, hits_map.
Qed.

Lemma write_fails_cases d slides :
  write_fails d slides ∨ ¬ write_fails d slides.
Proof.
  destruct (decide (ready slides (map_to_list d))) as [H|H].
  - right. by apply ready_map.
  - left. apply not_Forall_Exists in H; [|apply _].
    apply Exists_exists in H as ([k v] & Hkv%elem_of_map_to_list & H).
    cbn in H. exists k, v. split; [done|].
    destruct (decide (in_range (length slides) k)); [|tauto].
    split; [done|]. apply dec_stable. tauto.
Qed.

End ApplierMap.

(** * Properties of the segmenter *)

(** ** Markup stripping *)

Section Tags.

Implicit Types (s t w pre post body : str) (c : ascii) (n skip : nat).

Local Open Scope nat_scope.

Lemma find_gt_None s : Re.find_gt s = None ↔ ">"%char ∉ s.
Proof.
  induction s as [|c s IH]; cbn.
  - split; [|done]. intros _ []%elem_of_nil.
  - rewrite not_elem_of_cons. destruct (Ascii.eqb_spec c ">") as [->|Hc].
    + split; [done|]. by intros [[] _].
    + destruct (Re.find_gt s); cbn.
      * split; [done|]. intros [_ H]. by apply IH in H.
      * split; [|done]. intros _. split; [congruence|]. by apply IH.
Qed.

Lemma find_gt_Some s i :
  Re.find_gt s = Some i → s !! i = Some ">"%char ∧ ">"%char ∉ take i s.
Proof.
  revert i. induction s as [|c s IH]; intros i; cbn; [done|].
  destruct (Ascii.eqb_spec c ">") as [->|Hc].
  - intros [= <-]. split; [done|]. cbn. apply not_elem_of_nil.
  - destruct (Re.find_gt s) as [i'|]; [|done]. intros [= <-].
    destruct (IH _ eq_refl) as [H1 H2]. split; [done|]. cbn.
    apply not_elem_of_cons. split; [congruence|done].
Qed.

Lemma find_gt_app a b :
  Re.find_gt (a ++ b)
  = match Re.find_gt a with
    | Some i => Some i
    | None => (λ i, length a + i) <$> Re.find_gt b
    end.
Proof.
  induction a as [|c a IH]; cbn.
  - by destruct (Re.find_gt b).
  - destruct (Ascii.eqb c ">"); [done|]. rewrite IH.
    destruct (Re.find_gt a); [done|]. by destruct (Re.find_gt b).
Qed.

Lemma find_gt_lt s i : Re.find_gt s = Some i → i < length s.
Proof.
  revert i. induction s as [|c s IH]; intros i; cbn; [done|].
  destruct (Ascii.eqb c ">"); [intros [= <-]; lia|].
  destruct (Re.find_gt s) as [i'|]; [|done]. intros [= <-].
  specialize (IH _ eq_refl). lia.
Qed.

Lemma find_gt_tag_body body post :
  ">"%char ∉ body →
  Re.find_gt (body ++ ">"%char :: post) = Some (length body).
Proof.
  intros H%find_gt_None. rewrite find_gt_app, H. cbn. f_equal. lia.
Qed.

(** The match at the head of a text that starts with a tag is that
    tag. *)
Lemma tag_at_tag w post :
  is_tag w → Re.tag_at (w ++ post) = Some (length w).
Proof.
  intros (body & -> & Hne & Hgt). cbn. rewrite <-app_assoc. cbn.
  rewrite find_gt_tag_body by done.
  destruct body; [done|]. cbn. rewrite length_app. cbn. do 2 f_equal. lia.
Qed.

(** A match at the head of a text is a word of the language. *)
Lemma tag_at_Some s n :
  Re.tag_at s = Some n → n ≤ length s ∧ is_tag (take n s).
Proof.
  destruct s as [|c s]; [done|]. cbn.
  destruct (Ascii.eqb_spec c "<") as [->|]; [|done].
  destruct (Re.find_gt s) as [[|k]|] eqn:Hk; [done| |done]. intros [= <-].
  pose proof (find_gt_lt _ _ Hk) as Hlt. split; [cbn; lia|].
  destruct (find_gt_Some _ _ Hk) as [Hgt Hbody].
  exists (take (S k) s). split; [|split]; [|by destruct s|done].
  cbn [take]. f_equal. by apply take_S_r.
Qed.

(** The match at the head of [s] is the one prefix of [s] in the language
    of the pattern. *)
Lemma tag_at_iff s n :
  Re.tag_at s = Some n ↔ n ≤ length s ∧ is_tag (take n s).
Proof.
  split; [apply tag_at_Some|]. intros [Hn Hw].
  rewrite <-(take_drop n s) at 1. rewrite (tag_at_tag _ _ Hw).
  by rewrite length_take_le.
Qed.

(** *** The scan *)

Lemma sub_tags_from_drop skip s :
  Re.sub_tags_from skip s = Re.sub_tags (drop skip s).
Proof.
  revert skip. induction s as [|c s IH]; intros [|k]; try done.
  cbn. by rewrite IH.
Qed.

Lemma sub_tags_keep c s :
  Re.tag_at (c :: s) = None → Re.sub_tags (c :: s) = c :: Re.sub_tags s.
Proof. unfold Re.sub_tags. cbn [Re.sub_tags_from]. by intros ->. Qed.

Lemma sub_tags_tag_at s n :
  Re.tag_at s = Some n → Re.sub_tags s = Re.sub_tags (drop n s).
Proof.
  destruct s as [|c s]; [done|]. intros H. unfold Re.sub_tags at 1.
  cbn [Re.sub_tags_from]. rewrite H, sub_tags_from_drop.
  destruct n; [|done]. cbn in H.
  destruct (Ascii.eqb c "<"); [|done]. by destruct (Re.find_gt s) as [[]|].
Qed.

(** What is left is made of characters of the input, in their order. *)
Lemma sub_tags_from_sublist skip s :
  Re.sub_tags_from skip s `sublist_of` s.
Proof.
  revert skip. induction s as [|c s IH]; intros skip; [done|].
  cbn [Re.sub_tags_from]. destruct skip; [|by apply sublist_cons].
  destruct (Re.tag_at (c :: s)); [by apply sublist_cons|].
  by apply sublist_skip.
Qed.

Lemma sub_tags_sublist s : Re.sub_tags s `sublist_of` s.
Proof. apply sub_tags_from_sublist. Qed.

(** Every substring of the input that matches the pattern is deleted
    whole: what is left of the input is what is left of the text before
    the tag, then what is left of the text behind it. *)
Lemma sub_tags_delete pre w post :
  is_tag w →
  ∃ kept, kept `sublist_of` pre
          ∧ Re.sub_tags (pre ++ w ++ post) = kept ++ Re.sub_tags post.
Proof.
  intros Hw. remember (length pre) as n eqn:Hn. revert pre Hn.
  induction n as [n IH] using lt_wf_ind. intros [|c pre] Hn.
  { exists []. split; [done|]. cbn [app].
    rewrite (sub_tags_tag_at _ _ (tag_at_tag w post Hw)).
    by rewrite drop_app_length. }
  cbn [app]. destruct (Re.tag_at (c :: pre ++ w ++ post)) as [m|] eqn:E.
  - rewrite (sub_tags_tag_at _ _ E). cbn in E.
    destruct (Ascii.eqb c "<"); [|done]. rewrite find_gt_app in E.
    destruct (Re.find_gt pre) as [i|] eqn:Hi.
    + destruct i as [|i]; [done|]. injection E as <-.
      apply find_gt_lt in Hi. cbn [drop].
      rewrite drop_app_le by lia.
      destruct (IH (length (drop (S (S i)) pre))) with (pre := drop (S (S i)) pre)
        as (kept & Hk & ->); [rewrite length_drop; cbn in Hn; lia|done|].
      exists kept. split; [|done]. apply sublist_cons.
      etransitivity; [done|]. apply sublist_drop.
    + destruct Hw as (body & -> & Hne & Hgt). cbn in E.
      rewrite <-app_assoc in E. cbn in E.
      rewrite find_gt_tag_body in E by done. cbn in E.
      exists []. split; [apply sublist_nil_l|]. cbn [app].
      destruct (length pre + S (length body)) as [|k] eqn:Hk; [lia|].
      injection E as <-. f_equal. cbn [drop].
      rewrite drop_app_ge by lia.
      replace (S (S k) - length pre) with (S (length body + 1)) by lia.
      cbn [drop]. rewrite <-app_assoc, drop_app_ge by lia.
      by replace (length body + 1 - length body) with 1 by lia.
  - rewrite sub_tags_keep by done.
    destruct (IH (length pre)) with (pre := pre) as (kept & Hk & ->);
      [cbn in Hn; lia|done|].
    exists (c :: kept). split; [by apply sublist_skip|done].
Qed.

(** *** The text that is left has no tag *)

Lemma tag_at_kept c s :
  Re.tag_at (c :: s) = None → Re.tag_at (c :: Re.sub_tags s) = None.
Proof.
  cbn. destruct (Ascii.eqb c "<"); [|done].
  destruct (Re.find_gt s) as [[|k]|] eqn:Hk; [|done|]; intros _.
  - destruct s as [|c' s]; [done|]. cbn in Hk.
    destruct (Ascii.eqb_spec c' ">") as [->|]; [|by destruct (Re.find_gt s)].
    by rewrite sub_tags_keep.
  - apply find_gt_None in Hk.
    assert (Re.find_gt (Re.sub_tags s) = None) as ->; [|done].
    apply find_gt_None. intros H. apply Hk.
    eapply elem_of_sublist; [done|]. apply sub_tags_sublist.
Qed.

Lemma sub_tags_from_tag_free skip s : tag_free (Re.sub_tags_from skip s).
Proof.
  revert skip. induction s as [|c s IH]; intros skip; [done|].
  cbn [Re.sub_tags_from]. destruct skip; [|done].
  destruct (Re.tag_at (c :: s)) eqn:E; [done|].
  split; [|done]. by apply tag_at_kept.
Qed.

Lemma tag_free_no_tag t : tag_free t → ¬ has_tag t.
Proof.
  intros Ht (w & Hw & pre & post & ->).
  induction pre as [|c pre IH]; [|apply IH, Ht].
  cbn [app] in Ht. pose proof (tag_at_tag w post Hw) as E.
  destruct Hw as (body & -> & _). cbn [app] in Ht, E.
  destruct Ht as [Ht _]. congruence.
Qed.

Lemma sub_tags_no_tag s : ¬ has_tag (Re.sub_tags s).
Proof. apply tag_free_no_tag, sub_tags_from_tag_free. Qed.

(** A text without a tag is left as it is. *)
Lemma sub_tags_tag_free s : tag_free s → Re.sub_tags s = s.
Proof.
  induction s as [|c s IH]; [done|]. intros [E Hs].
  rewrite sub_tags_keep by done. by rewrite IH.
Qed.

Lemma sub_tags_idemp s : Re.sub_tags (Re.sub_tags s) = Re.sub_tags s.
Proof. apply sub_tags_tag_free, sub_tags_from_tag_free. Qed.

(** *** Substrings *)

Lemma substring_refl t : substring t t.
Proof. exists [], []. by rewrite app_nil_r. Qed.

Lemma substring_trans u v t : substring u v → substring v t → substring u t.
Proof.
  intros (p1 & q1 & ->) (p2 & q2 & ->). exists (p2 ++ p1), (q1 ++ q2).
  by rewrite <-!app_assoc.
Qed.

Lemma substring_take n t : substring (take n t) t.
Proof. exists [], (drop n t). cbn. by rewrite take_drop. Qed.

Lemma substring_drop n t : substring (drop n t) t.
Proof. exists (take n t), []. by rewrite app_nil_r, take_drop. Qed.

Lemma substring_slice t a b : substring (Py.slice t a b) t.
Proof.
  eapply substring_trans; [apply substring_take|apply substring_drop].
Qed.

Lemma lstrip_suffix t : ∃ ws, t = ws ++ Py.lstrip t ∧ Forall Py.isspace ws.
Proof.
  induction t as [|c t (ws & IH & Hws)]; [by exists []|]. cbn.
  destruct (Py.isspace c) eqn:E; [|by exists []].
  exists (c :: ws). split; [by rewrite IH at 1|]. constructor; [|done].
  by rewrite E.
Qed.

Lemma rstrip_prefix t : ∃ ws, t = Py.rstrip t ++ ws ∧ Forall Py.isspace ws.
Proof.
  destruct (lstrip_suffix (reverse t)) as (ws & E & Hws).
  exists (reverse ws). split; [|by apply Forall_reverse].
  unfold Py.rstrip. rewrite <-reverse_app, <-E. by rewrite reverse_involutive.
Qed.

Lemma substring_strip t : substring (Py.strip t) t.
Proof.
  destruct (lstrip_suffix t) as (a & Ea & _).
  destruct (rstrip_prefix (Py.lstrip t)) as (b & Eb & _).
  exists a, b. unfold Py.strip. by rewrite <-Eb.
Qed.

Lemma has_tag_substring v t : substring v t → has_tag v → has_tag t.
Proof. intros Hv (w & Hw & Hwv). exists w. eauto using substring_trans. Qed.

End Tags.

(** ** Markers *)

Section Markers.

Implicit Types (s t w d r : str) (c : ascii) (n pos skip : nat).
Implicit Types (m : Re.Match) (ms : list Re.Match).

Local Open Scope nat_scope.

(** *** Numbers *)

Lemma isdecimal_digit_value c :
  Py.isdecimal c → (0 ≤ Py.digit_value c ≤ 9)%Z.
Proof.
  unfold Py.isdecimal, Py.digit_value.
  intros [H1%Is_true_true%Nat.leb_le H2%Is_true_true%Nat.leb_le]%andb_prop_elim.
  lia.
Qed.

Lemma int_acc_digits acc d :
  Forall Py.isdecimal d →
  Py.int_acc acc d = inr (foldl (λ acc c, 10 * acc + Py.digit_value c)%Z acc d).
Proof.
  intros Hd. revert acc. induction Hd as [|c d Hc Hd IH]; intros acc; [done|].
  cbn. apply Is_true_true in Hc. by rewrite Hc, IH.
Qed.

(** [int] does not raise on a match of [\d+] that is not too long. *)
Lemma int_digits d :
  d ≠ [] → Forall Py.isdecimal d →
  (Z.of_nat (length d) ≤ Py.int_max_str_digits)%Z →
  Py.int d = inr (digits_value d).
Proof.
  intros Hne Hd Hlen. unfold Py.int, digits_value.
  rewrite (proj2 (Z.ltb_ge _ _)) by done.
  destruct d; [done|]. by apply int_acc_digits.
Qed.

Lemma int_too_long d :
  (Py.int_max_str_digits < Z.of_nat (length d))%Z →
  Py.int d = inl Py.ValueError.
Proof. intros H. unfold Py.int. by rewrite (proj2 (Z.ltb_lt _ _)). Qed.

Lemma digits_value_nonneg d : Forall Py.isdecimal d → (0 ≤ digits_value d)%Z.
Proof.
  unfold digits_value. intros Hd.
  assert (∀ acc, (0 ≤ acc)%Z →
            (0 ≤ foldl (λ acc c, 10 * acc + Py.digit_value c) acc d)%Z) as H.
  { induction Hd as [|c d Hc Hd IH]; intros acc Hacc; [done|].
    cbn. apply IH. apply isdecimal_digit_value in Hc. lia. }
  by apply H.
Qed.

(** *** The character classes, written out *)

Lemma decide_both (P Q : Prop) `{!Decision P, !Decision Q} :
  bool_decide P = bool_decide Q → P ↔ Q.
Proof.
  intros H. by rewrite <-(bool_decide_spec P), <-(bool_decide_spec Q), H.
Qed.

Lemma isspace_blanks c : Py.isspace c ↔ c ∈ blanks.
Proof. apply (decide_both _ _). each_character c; reflexivity. Qed.

Lemma isdecimal_digits c : Py.isdecimal c ↔ c ∈ digits.
Proof. apply (decide_both _ _). each_character c; reflexivity. Qed.

Lemma lower_hash c : Py.lower "#" = Py.lower c ↔ c = "#"%char.
Proof. apply (decide_both _ _). each_character c; reflexivity. Qed.

Lemma lower_S c : Py.lower "S" = Py.lower c ↔ c ∈ lit "Ss".
Proof. apply (decide_both _ _). each_character c; reflexivity. Qed.

Lemma lower_l c : Py.lower "l" = Py.lower c ↔ c ∈ lit "Ll".
Proof. apply (decide_both _ _). each_character c; reflexivity. Qed.

Lemma lower_i c : Py.lower "i" = Py.lower c ↔ c ∈ lit "Ii".
Proof. apply (decide_both _ _). each_character c; reflexivity. Qed.

Lemma lower_d c : Py.lower "d" = Py.lower c ↔ c ∈ lit "Dd".
Proof. apply (decide_both _ _). each_character c; reflexivity. Qed.

Lemma lower_e c : Py.lower "e" = Py.lower c ↔ c ∈ lit "Ee".
Proof. apply (decide_both _ _). each_character c; reflexivity. Qed.

Lemma Forall_isspace_blanks s : Forall Py.isspace s ↔ Forall (.∈ blanks) s.
Proof. apply Forall_proper; [|done]. intros c. apply isspace_blanks. Qed.

Lemma Forall_isdecimal_digits s :
  Forall Py.isdecimal s ↔ Forall (.∈ digits) s.
Proof. apply Forall_proper; [|done]. intros c. apply isdecimal_digits. Qed.

Lemma same_letters_hashes w : same_letters (lit "###") w ↔ w = lit "###".
Proof.
  unfold same_letters. change (lit "###") with ["#"; "#"; "#"]%char. split.
  - intros H.
    do 3 (apply Forall2_cons_inv_l in H as (? & ? & ?%lower_hash & H & ->)).
    apply Forall2_nil_inv_l in H as ->. by subst.
  - intros ->. by repeat constructor.
Qed.

Lemma same_letters_slide w : same_letters (lit "Slide") w ↔ slide_word w.
Proof.
  unfold same_letters, slide_word.
  change (lit "Slide") with ["S"; "l"; "i"; "d"; "e"]%char. split.
  - intros H.
    apply Forall2_cons_inv_l in H as (? & ? & ?%lower_S & H & ->).
    apply Forall2_cons_inv_l in H as (? & ? & ?%lower_l & H & ->).
    apply Forall2_cons_inv_l in H as (? & ? & ?%lower_i & H & ->).
    apply Forall2_cons_inv_l in H as (? & ? & ?%lower_d & H & ->).
    apply Forall2_cons_inv_l in H as (? & ? & ?%lower_e & H & ->).
    apply Forall2_nil_inv_l in H as ->.
    repeat (constructor; [done|]). constructor.
  - intros H.
    apply Forall2_cons_inv_r in H as (? & ? & ?%lower_S & H & ->).
    apply Forall2_cons_inv_r in H as (? & ? & ?%lower_l & H & ->).
    apply Forall2_cons_inv_r in H as (? & ? & ?%lower_i & H & ->).
    apply Forall2_cons_inv_r in H as (? & ? & ?%lower_d & H & ->).
    apply Forall2_cons_inv_r in H as (? & ? & ?%lower_e & H & ->).
    apply Forall2_nil_inv_r in H as ->.
    repeat (constructor; [done|]). constructor.
Qed.

(** The language of the pattern, as the matcher reads it. *)
Lemma is_marker_parts w d :
  is_marker w d
  ↔ ∃ h ws1 word ws2,
      w = h ++ ws1 ++ word ++ ws2 ++ d
      ∧ same_letters (lit "###") h ∧ Forall Py.isspace ws1
      ∧ same_letters (lit "Slide") word ∧ Forall Py.isspace ws2
      ∧ Forall Py.isdecimal d ∧ d ≠ [].
Proof.
  unfold is_marker. split.
  - intros (ws1 & word & ws2 & -> & H1 & Hw & H2 & Hd & Hne).
    exists (lit "###"), ws1, word, ws2.
    rewrite same_letters_hashes, same_letters_slide.
    by rewrite !Forall_isspace_blanks, Forall_isdecimal_digits.
  - intros (h & ws1 & word & ws2 & -> & Hh%same_letters_hashes
            & H1%Forall_isspace_blanks & Hw%same_letters_slide
            & H2%Forall_isspace_blanks & Hd%Forall_isdecimal_digits & Hne).
    subst h. by exists ws1, word, ws2.
Qed.

(** *** One match *)

Lemma span_spec (p : ascii → bool) s a b :
  Re.span p s = (a, b) →
  s = a ++ b ∧ Forall p a ∧ (∀ c b', b = c :: b' → ¬ p c).
Proof.
  revert a b. induction s as [|c s IH]; intros a b; cbn.
  { intros [= <- <-]. by repeat split. }
  destruct (p c) eqn:Hc.
  - destruct (Re.span p s) as [a' b'] eqn:E. intros [= <- <-].
    destruct (IH _ _ eq_refl) as (-> & Ha & Hb). repeat split; [|done].
    constructor; [by rewrite Hc|done].
  - intros [= <- <-]. repeat split; [done|].
    intros c' b' [= <- <-]. rewrite Hc. by intros [].
Qed.

Lemma literal_Some pat s r :
  Re.literal pat s = Some r → ∃ w, s = w ++ r ∧ same_letters pat w.
Proof.
  revert s. induction pat as [|p pat IH]; intros s; cbn.
  { intros [= <-]. exists []. split; [done|constructor]. }
  destruct s as [|c s]; [done|].
  destruct (Ascii.eqb_spec (Py.lower p) (Py.lower c)) as [E|]; [|done].
  intros (w & -> & Hw)%IH. exists (c :: w). split; [done|by constructor].
Qed.

(** A match of the marker pattern is a word of its language, and its
    group 1 is a number. *)
Lemma marker_at_Some s n d :
  Re.marker_at s = Some (n, d) →
  is_marker (take n s) d ∧ 0 < n ≤ length s.
Proof.
  unfold Re.marker_at.
  destruct (Re.literal (lit "###") s) as [r1|] eqn:E1; [|done].
  cbn [mbind option_bind].
  destruct (Re.span Py.isspace r1) as [ws1 r2] eqn:E2.
  destruct (Re.literal (lit "Slide") r2) as [r3|] eqn:E3; [|done].
  cbn [mbind option_bind].
  destruct (Re.span Py.isspace r3) as [ws2 r4] eqn:E4.
  destruct (Re.span Py.isdecimal r4) as [dg r5] eqn:E5.
  destruct dg as [|c dg]; [done|]. intros [= <- <-].
  apply literal_Some in E1 as (h & -> & Hh).
  apply span_spec in E2 as (-> & Hws1 & _).
  apply literal_Some in E3 as (word & -> & Hword).
  apply span_spec in E4 as (-> & Hws2 & _).
  apply span_spec in E5 as (-> & Hd & _).
  pose proof (Forall2_length _ _ _ Hh) as Lh.
  pose proof (Forall2_length _ _ _ Hword) as Lw. cbn in Lh, Lw.
  match goal with
  | |- context [take ?k _] =>
      replace k with (length (h ++ ws1 ++ word ++ ws2 ++ c :: dg))
        by (rewrite !length_app; cbn; lia)
  end.
  replace (h ++ ws1 ++ word ++ ws2 ++ (c :: dg) ++ r5)
    with ((h ++ ws1 ++ word ++ ws2 ++ c :: dg) ++ r5)
    by by rewrite <-!app_assoc.
  rewrite take_app_length. split.
  - apply is_marker_parts. by exists h, ws1, word, ws2.
  - rewrite !length_app. cbn. lia.
Qed.

Lemma is_marker_digits w d : is_marker w d → d ≠ [] ∧ Forall Py.isdecimal d.
Proof. intros (?&?&?&?&?&?&?&?&?&?&?)%is_marker_parts. done. Qed.

(** The other way round: at the head of a text that starts with a
    marker, followed by no further digit, the match is this marker.  The
    model of the match and the language of the pattern agree. *)
Lemma literal_same_letters pat w r :
  same_letters pat w → Re.literal pat (w ++ r) = Some r.
Proof.
  induction 1 as [|p c pat w E _ IH]; [by destruct r|].
  cbn. by rewrite E, Ascii.eqb_refl.
Qed.

Lemma span_app (p : ascii → bool) a b :
  Forall p a → (∀ c b', b = c :: b' → ¬ p c) → Re.span p (a ++ b) = (a, b).
Proof.
  intros Ha Hb. induction Ha as [|c a Hc _ IH]; cbn.
  - destruct b as [|c b]; [done|]. cbn.
    destruct (p c) eqn:E; [|done]. destruct (Hb c b eq_refl). by rewrite E.
  - apply Is_true_true in Hc. by rewrite Hc, IH.
Qed.

Lemma letter_not_space c : Py.lower "S" = Py.lower c → ¬ Py.isspace c.
Proof. each_character c; try tauto; discriminate. Qed.

Lemma decimal_not_space c : Py.isdecimal c → ¬ Py.isspace c.
Proof. each_character c; tauto. Qed.

Lemma marker_at_complete w d rest :
  is_marker w d → (∀ c r, rest = c :: r → ¬ Py.isdecimal c) →
  Re.marker_at (w ++ rest) = Some (length w, d).
Proof.
  intros (h & ws1 & word & ws2 & -> & Hh & H1 & Hw & H2 & Hd & Hne)%is_marker_parts
         Hrest.
  pose proof (Forall2_length _ _ _ Hh) as Lh.
  pose proof (Forall2_length _ _ _ Hw) as Lw. cbn in Lh, Lw.
  unfold Re.marker_at. rewrite <-!app_assoc.
  rewrite (literal_same_letters _ h) by done. cbn [mbind option_bind].
  rewrite (span_app _ ws1); [|done|].
  - rewrite (literal_same_letters _ word) by done. cbn [mbind option_bind].
    rewrite (span_app _ ws2); [|done|].
    + rewrite (span_app _ d) by done. destruct d as [|c d]; [done|].
      do 2 f_equal. rewrite !length_app. lia.
    + destruct d as [|c d]; [done|]. intros c' b' [= <- <-].
      apply decimal_not_space. by apply Forall_cons in Hd as [? _].
  - apply Forall2_cons_inv_l in Hw as (c & word' & E & _ & ->).
    intros c' b' [= <- <-]. by apply letter_not_space.
Qed.

(** X6. The grammar of a marker, on the texts of the model, whose
    characters are the code points below 256.  There is a match of the
    marker pattern at the head of [s], of length [n] and with group 1
    [d], exactly when the first [n] characters of [s] are [###], blanks
    or none, the word [slide] with each letter in either case, blanks or
    none, and the digits [d], at least one, and no digit follows them in
    [s].  The blanks are the twelve characters of [blanks], the digits
    the ten of [digits]. *)
Lemma marker_at_iff s n d :
  Re.marker_at s = Some (n, d)
  ↔ n ≤ length s ∧ is_marker (take n s) d
    ∧ ∀ c r, drop n s = c :: r → c ∉ digits.
Proof.
  split.
  - intros H. destruct (marker_at_Some _ _ _ H) as [Hm [_ Hn]].
    split; [done|]. split; [done|]. revert H. unfold Re.marker_at.
    destruct (Re.literal (lit "###") s) as [r1|] eqn:E1; [|done].
    cbn [mbind option_bind].
    destruct (Re.span Py.isspace r1) as [ws1 r2] eqn:E2.
    destruct (Re.literal (lit "Slide") r2) as [r3|] eqn:E3; [|done].
    cbn [mbind option_bind].
    destruct (Re.span Py.isspace r3) as [ws2 r4] eqn:E4.
    destruct (Re.span Py.isdecimal r4) as [dg r5] eqn:E5.
    destruct dg as [|c dg]; [done|]. intros [= <- <-].
    apply literal_Some in E1 as (h & -> & Hh).
    apply span_spec in E2 as (-> & _ & _).
    apply literal_Some in E3 as (word & -> & Hword).
    apply span_spec in E4 as (-> & _ & _).
    apply span_spec in E5 as (-> & _ & H5).
    pose proof (Forall2_length _ _ _ Hh) as Lh.
    pose proof (Forall2_length _ _ _ Hword) as Lw. cbn in Lh, Lw.
    replace (h ++ ws1 ++ word ++ ws2 ++ (c :: dg) ++ r5)
      with ((h ++ ws1 ++ word ++ ws2 ++ c :: dg) ++ r5)
      by by rewrite <-!app_assoc.
    rewrite drop_app_length'; [|rewrite !length_app; cbn; lia].
    intros c' r E. rewrite <-isdecimal_digits. by eapply H5.
  - intros (Hn & Hm & Hrest).
    rewrite <-(take_drop n s) at 1.
    rewrite (marker_at_complete _ d); [by rewrite length_take_le|done|].
    intros c r E. rewrite isdecimal_digits. by eapply Hrest.
Qed.

Lemma marker_at_iff_witness :
  is_marker (lit "###" ++ LF :: lit "sLiDe  08") (lit "08").
Proof.
  refine (proj1 (proj2 (proj1 (marker_at_iff
                                 (lit "###" ++ LF :: lit "sLiDe  08.")
                                 13 (lit "08")) _))).
  vm_compute. reflexivity.
Defined.

(** *** All matches *)

Lemma chain_weaken lo lo' hi hi' ms :
  lo' ≤ lo → hi ≤ hi' → chain lo hi ms → chain lo' hi' ms.
Proof.
  revert lo lo'. induction ms as [|m ms IH]; intros lo lo' H1 H2; [done|].
  cbn. intros (?&?&?&?). repeat split; [lia..|].
  by apply (IH (Re.m_end m) (Re.m_end m)).
Qed.

Lemma finditer_from_chain pos skip s :
  chain (pos + skip) (pos + length s) (Re.finditer_from pos skip s).
Proof.
  revert pos skip. induction s as [|c s IH]; intros pos skip; [done|].
  cbn [Re.finditer_from]. destruct skip as [|k].
  - destruct (Re.marker_at (c :: s)) as [[n d]|] eqn:E.
    + apply marker_at_Some in E as [_ Hn]. cbn in Hn |- *.
      repeat split; [lia..|].
      eapply chain_weaken, IH; lia.
    + eapply chain_weaken, IH; cbn; lia.
  - eapply chain_weaken, IH; cbn; lia.
Qed.

Lemma finditer_from_marker t pos skip :
  Forall (marker_of t) (Re.finditer_from pos skip (drop pos t)).
Proof.
  remember (drop pos t) as s eqn:Hs. revert pos skip Hs.
  induction s as [|c s IH]; intros pos skip Hs; [done|].
  assert (s = drop (S pos) t) as Hs'.
  { by rewrite <-(Nat.add_1_r pos), <-drop_drop, <-Hs. }
  cbn [Re.finditer_from]. destruct skip as [|k]; [|by apply IH].
  destruct (Re.marker_at (c :: s)) as [[n d]|] eqn:E; [|by apply IH].
  constructor; [|by apply IH]. unfold marker_of.
  cbn [Re.m_start Re.m_end Re.group1].
  rewrite <-Hs, E. do 2 f_equal. lia.
Qed.

Lemma finditer_chain t : chain 0 (length t) (Re.finditer t).
Proof. apply (finditer_from_chain 0 0). Qed.

Lemma finditer_marker t : Forall (marker_of t) (Re.finditer t).
Proof. apply (finditer_from_marker t 0 0). Qed.

(** No marker is missed: a place where a match starts lies in one of
    the matches that are collected. *)
Lemma finditer_from_covers s pos skip p n d :
  pos + skip ≤ p → Re.marker_at (drop (p - pos) s) = Some (n, d) →
  ∃ m, m ∈ Re.finditer_from pos skip s ∧ Re.m_start m ≤ p < Re.m_end m.
Proof.
  revert pos skip. induction s as [|c s IH]; intros pos skip Hp Hm.
  { by rewrite drop_nil in Hm. }
  assert (S pos ≤ p → drop (p - pos) (c :: s) = drop (p - S pos) s) as Hdrop.
  { intros ?. by replace (p - pos) with (S (p - S pos)) by lia. }
  cbn [Re.finditer_from]. destruct skip as [|k].
  - destruct (Re.marker_at (c :: s)) as [[n0 d0]|] eqn:E.
    + pose proof (marker_at_Some _ _ _ E) as [_ [Hn0 _]].
      destruct (decide (p < pos + n0)) as [Hlt|Hge].
      * eexists. split; [left|]. cbn. lia.
      * rewrite Hdrop in Hm by lia.
        destruct (IH (S pos) (Nat.pred n0)) as (m & Hin & Hr); [lia|done|].
        exists m. split; [by right|done].
    + destruct (decide (p = pos)) as [->|Hne].
      { rewrite Nat.sub_diag in Hm. cbn [drop] in Hm. congruence. }
      rewrite Hdrop in Hm by lia. apply (IH (S pos) 0); [lia|done].
  - rewrite Hdrop in Hm by lia. apply (IH (S pos) k); [lia|done].
Qed.

Lemma finditer_covers t p n d :
  Re.marker_at (drop p t) = Some (n, d) →
  ∃ m, m ∈ Re.finditer t ∧ Re.m_start m ≤ p < Re.m_end m.
Proof.
  intros H. apply (finditer_from_covers t 0 0 p n d); [lia|].
  by rewrite Nat.sub_0_r.
Qed.

Lemma chain_lookup lo hi ms i m :
  chain lo hi ms → ms !! i = Some m →
  lo ≤ Re.m_start m ∧ Re.m_start m < Re.m_end m ∧ Re.m_end m ≤ hi
  ∧ ∀ m', ms !! S i = Some m' → Re.m_end m ≤ Re.m_start m'.
Proof.
  revert lo i. induction ms as [|m0 ms IH]; intros lo i; [done|].
  cbn [chain]. intros (H1 & H2 & H3 & H4). destruct i as [|i]; cbn.
  - intros [= <-]. repeat split; [done..|].
    intros m' Hm'. destruct ms as [|m1 ms]; [done|].
    cbn in Hm', H4. injection Hm' as <-. tauto.
  - intros Hm. destruct (IH _ _ H4 Hm) as (?&?&?&?).
    repeat split; [lia|done..].
Qed.

Lemma marker_of_digits t m :
  marker_of t m → Re.group1 m ≠ [] ∧ Forall Py.isdecimal (Re.group1 m).
Proof. intros [H _]%marker_at_Some. by eapply is_marker_digits. Qed.

End Markers.

(** ** The segments *)

Section Segmenter.

Implicit Types (s t : str) (i j : nat) (k : Z) (v : str).
Implicit Types (m : Re.Match) (ms l : list Re.Match) (result : gmap Z str).

Local Open Scope nat_scope.

Lemma Forall_enumerate_from (P : Re.Match → Prop) i l :
  Forall P l → Forall (λ im, P im.2) (enumerate_from i l).
Proof.
  intros H. revert i. induction H; intros i; cbn; by constructor.
Qed.

(** One round of the loop, for a marker whose digits [int] accepts:
    group 1 is a number and the next match is read only where there is
    one. *)
Lemma parse_loop_step t ms i m todo result :
  marker_of t m → int_accepts m →
  parse_loop t ms ((i, m) :: todo) result
  = parse_loop t ms todo (assign t ms result (i, m)).
Proof.
  intros Hm Hlen. cbn [parse_loop].
  destruct (marker_of_digits _ _ Hm) as [Hne Hd].
  rewrite int_digits by done. cbn [mbind exn_bind].
  unfold assign, note_text, segment_end. cbn [fst snd].
  rewrite Nat.add_1_r.
  destruct (S i <? length ms) eqn:E.
  - apply Nat.ltb_lt, lookup_lt_is_Some in E as [next E].
    unfold getitem. by rewrite E.
  - apply Nat.ltb_ge, lookup_ge_None in E. by rewrite E.
Qed.

(** The loop raises nothing when [int] accepts the digits of every
    marker. *)
Lemma parse_loop_spec t ms todo result :
  Forall (λ im, marker_of t im.2) todo →
  Forall (λ im, int_accepts im.2) todo →
  parse_loop t ms todo result = inr (foldl (assign t ms) result todo).
Proof.
  intros H. revert result.
  induction H as [|[i m] todo Hm _ IH]; intros result Hlen; [done|].
  apply Forall_cons in Hlen as [Hlen Hrest]. cbn in Hm, Hlen.
  rewrite parse_loop_step by done. by apply IH.
Qed.

(** It raises at the first marker whose digits are too many. *)
Lemma parse_loop_raises t ms todo result :
  Forall (λ im, marker_of t im.2) todo →
  ¬ Forall (λ im, int_accepts im.2) todo →
  parse_loop t ms todo result = inl Py.ValueError.
Proof.
  intros H. revert result.
  induction H as [|[i m] todo Hm _ IH]; intros result Hlen.
  { destruct Hlen. constructor. }
  cbn in Hm. destruct (decide (int_accepts m)) as [Hi|Hi].
  - rewrite parse_loop_step by done. apply IH.
    intros Hrest. apply Hlen. by constructor.
  - cbn [parse_loop]. rewrite int_too_long; [done|].
    unfold int_accepts in Hi. lia.
Qed.

Lemma Forall_enumerate_from_iff (P : Re.Match → Prop) i l :
  Forall (λ im, P im.2) (enumerate_from i l) ↔ Forall P l.
Proof.
  revert i. induction l as [|m l IH]; intros i; cbn; [done|].
  by rewrite !Forall_cons, IH.
Qed.

Lemma foldl_assign_miss t ms l i result k :
  (∀ m, m ∈ l → slide_number m ≠ k) →
  foldl (assign t ms) result (enumerate_from i l) !! k = result !! k.
Proof.
  revert i result. induction l as [|m l IH]; intros i result Hk; [done|].
  cbn. rewrite IH.
  - unfold assign. cbn. apply lookup_insert_ne, Hk. left.
  - intros m' Hm'. apply Hk. by right.
Qed.

(** The last marker that declares a number gives it its text. *)
Lemma foldl_assign_last t ms l i0 result i m :
  l !! i = Some m →
  (∀ j m', i < j → l !! j = Some m' → slide_number m' ≠ slide_number m) →
  foldl (assign t ms) result (enumerate_from i0 l) !! slide_number m
  = Some (note_text t ms (i0 + i) m).
Proof.
  revert i0 result i. induction l as [|m0 l IH]; intros i0 result i; [done|].
  destruct i as [|i]; cbn.
  - intros [= ->] Hlast. rewrite foldl_assign_miss.
    + unfold assign. cbn. rewrite Nat.add_0_r. apply lookup_insert_eq.
    + intros m' [j Hj]%list_elem_of_lookup. apply (Hlast (S j)); [lia|done].
  - intros Hm Hlast. rewrite (IH (S i0) _ i); [do 2 f_equal; lia|done|].
    intros j m' Hj Hm'. apply (Hlast (S j)); [lia|done].
Qed.

Lemma foldl_assign_dom t ms l i result :
  dom (foldl (assign t ms) result (enumerate_from i l))
  = dom result ∪ list_to_set (slide_number <$> l).
Proof.
  revert i result. induction l as [|m l IH]; intros i result; cbn.
  - set_solver.
  - rewrite IH. unfold assign. cbn. rewrite dom_insert_L. set_solver.
Qed.

Lemma segmented_dom t ms :
  dom (segmented t ms) = list_to_set (slide_number <$> ms).
Proof. unfold segmented, enumerate. rewrite foldl_assign_dom. set_solver. Qed.

Lemma segmented_last t ms i m :
  ms !! i = Some m →
  (∀ j m', i < j → ms !! j = Some m' → slide_number m' ≠ slide_number m) →
  segmented t ms !! slide_number m = Some (note_text t ms i m).
Proof.
  intros Hm Hlast. unfold segmented, enumerate.
  by rewrite (foldl_assign_last t ms ms 0 ∅ i m).
Qed.


Lemma segmented_distinct t ms i m :
  NoDup (slide_number <$> ms) → ms !! i = Some m →
  segmented t ms !! slide_number m = Some (note_text t ms i m).
Proof.
  intros Hnd Hm. apply segmented_last; [done|].
  intros j m' Hj Hm' E.
  assert (i = j); [|lia].
  eapply NoDup_lookup; [done| |].
  - by rewrite list_lookup_fmap, Hm.
  - rewrite list_lookup_fmap, Hm'. cbn. by rewrite E.
Qed.

(** Every entry comes from a marker, with its number and its text. *)
Lemma foldl_assign_Some t ms l i0 result k v :
  foldl (assign t ms) result (enumerate_from i0 l) !! k = Some v →
  result !! k = Some v
  ∨ ∃ i m, l !! i = Some m ∧ slide_number m = k
           ∧ v = note_text t ms (i0 + i) m.
Proof.
  revert i0 result. induction l as [|m0 l IH]; intros i0 result; [by left|].
  cbn. intros [H|(i & m & Hm & Hk & Hv)]%IH.
  - unfold assign in H. cbn in H.
    apply lookup_insert_Some in H as [[<- <-]|[_ H]]; [|by left].
    right. exists 0, m0. by rewrite Nat.add_0_r.
  - right. exists (S i), m. rewrite Nat.add_succ_r. done.
Qed.

Lemma segmented_lookup_Some t ms k v :
  segmented t ms !! k = Some v →
  ∃ i m, ms !! i = Some m ∧ slide_number m = k ∧ v = note_text t ms i m.
Proof.
  intros [H|H]%foldl_assign_Some; [|done]. by rewrite lookup_empty in H.
Qed.

(** *** What [parse_script] returns *)

Lemma parse_script_markers s :
  Re.finditer (Re.sub_tags s) ≠ [] → convertible s →
  parse_script s
  = inr (segmented (Re.sub_tags s) (Re.finditer (Re.sub_tags s))).
Proof.
  unfold convertible. intros Hne Hlen. unfold parse_script.
  destruct (Re.finditer (Re.sub_tags s)) as [|m ms] eqn:E; [done|].
  rewrite parse_loop_spec; [done| |].
  - apply Forall_enumerate_from. rewrite <-E. apply finditer_marker.
  - by apply Forall_enumerate_from_iff.
Qed.

Lemma parse_script_raises s :
  ¬ convertible s → parse_script s = inl Py.ValueError.
Proof.
  unfold convertible. intros Hlen. unfold parse_script.
  destruct (Re.finditer (Re.sub_tags s)) as [|m ms] eqn:E.
  { destruct Hlen. constructor. }
  apply parse_loop_raises.
  - apply Forall_enumerate_from. rewrite <-E. apply finditer_marker.
  - unfold enumerate. by rewrite Forall_enumerate_from_iff.
Qed.

Lemma parse_script_fallback s :
  Re.finditer (Re.sub_tags s) = [] →
  parse_script s = inr {[ 1%Z := Py.strip (Re.sub_tags s) ]}.
Proof. intros E. unfold parse_script. rewrite E. by rewrite insert_empty. Qed.

Lemma convertible_cases s : convertible s ∨ ¬ convertible s.
Proof.
  unfold convertible.
  destruct (decide (Forall int_accepts (Re.finditer (Re.sub_tags s)))); auto.
Qed.

(** Without marker there is nothing to convert. *)
Lemma fallback_convertible s :
  Re.finditer (Re.sub_tags s) = [] → convertible s.
Proof. unfold convertible. intros ->. constructor. Qed.

(** What [parse_script] returns, in all cases. *)
Lemma parse_script_cases s :
  (convertible s ∧ ∃ d, parse_script s = inr d)
  ∨ (¬ convertible s ∧ parse_script s = inl Py.ValueError).
Proof.
  destruct (convertible_cases s) as [H|H].
  - left. split; [done|].
    destruct (Re.finditer (Re.sub_tags s)) as [|m ms] eqn:E.
    + eexists. by apply parse_script_fallback.
    + eexists. apply parse_script_markers; [by rewrite E|done].
  - right. split; [done|]. by apply parse_script_raises.
Qed.

Lemma parse_script_returns s d : parse_script s = inr d → convertible s.
Proof.
  intros Hd. destruct (parse_script_cases s) as [[H _]|[_ H]]; [done|].
  congruence.
Qed.

End Segmenter.

(** ** Trimming *)

Section Trimming.

Implicit Types (x y v : str) (c : ascii).

Lemma lstrip_head x c v : Py.lstrip x = c :: v → ¬ Py.isspace c.
Proof.
  induction x as [|c' x IH]; [done|]. cbn.
  destruct (Py.isspace c') eqn:E; [done|]. intros [= <- <-]. rewrite E.
  by intros [].
Qed.

Lemma rstrip_last y c v : Py.rstrip y = v ++ [c] → ¬ Py.isspace c.
Proof.
  unfold Py.rstrip. intros H. apply (f_equal reverse) in H.
  rewrite reverse_involutive, reverse_snoc in H. by eapply lstrip_head.
Qed.

Lemma rstrip_head y c v : Py.rstrip y = c :: v → ∃ y', y = c :: y'.
Proof.
  destruct (rstrip_prefix y) as (ws & E & _). intros H. rewrite H in E.
  by exists (v ++ ws).
Qed.

Lemma strip_trimmed x : trimmed (Py.strip x).
Proof.
  unfold Py.strip. split.
  - intros c v [y' Hy]%rstrip_head. by eapply lstrip_head.
  - intros c v. apply rstrip_last.
Qed.

Lemma lstrip_id v : (∀ c v', v = c :: v' → ¬ Py.isspace c) → Py.lstrip v = v.
Proof.
  destruct v as [|c v]; [done|]. intros H. cbn.
  destruct (Py.isspace c) eqn:E; [|done].
  destruct (H c v eq_refl). by rewrite E.
Qed.

Lemma trimmed_strip v : trimmed v → Py.strip v = v.
Proof.
  intros [Hhead Hlast]. unfold Py.strip. rewrite (lstrip_id v Hhead).
  unfold Py.rstrip. rewrite lstrip_id; [apply reverse_involutive|].
  intros c v' E. apply (f_equal reverse) in E.
  rewrite reverse_involutive, reverse_cons in E. by eapply Hlast.
Qed.


End Trimming.

(** * Main results on the applier *)

Section ApplierResults.

Implicit Types (d : gmap Z str) (prs : Pptx.Package).
Implicit Types (slides : list (option str)) (k : Z) (v : str).

Lemma frames_not_write_fails d slides :
  Forall is_Some slides → ¬ write_fails d slides.
Proof.
  intros H (k & v & _ & _ & Hm). unfold frame_missing in Hm.
  eapply Forall_lookup_1 in H; [|done]. by apply is_Some_None in H.
Qed.

(** The entries that name no slide play no part. *)
Lemma process_ppt_in_range prs d :
  process_ppt (Some prs) (entries_in_range (length (Pptx.slides prs)) d)
  = process_ppt (Some prs) d.
Proof.
  destruct (write_fails_cases d (Pptx.slides prs)) as [Hf|Hf].
  { rewrite !process_ppt_write_fails; [done..|].
    by apply write_fails_in_range. }
  assert (¬ write_fails (entries_in_range (length (Pptx.slides prs)) d)
            (Pptx.slides prs)) as Hf' by by rewrite write_fails_in_range.
  destruct (Pptx.writable prs) eqn:Hw.
  - rewrite !process_ppt_ok by done.
    by rewrite notes_after_in_range, entries_in_range_idemp.
  - by rewrite !process_ppt_save_fails.
Qed.

Lemma entries_in_range_delete N d k :
  ¬ in_range N k → entries_in_range N (delete k d) = entries_in_range N d.
Proof.
  intros Hk. unfold entries_in_range. apply map_filter_delete_not.
  intros y _. done.
Qed.

(** *** What python-pptx writes *)





(** What [process_ppt] returns, in all cases. *)
Lemma process_ppt_cases pptx_file d :
  (∃ prs, pptx_file = Some prs ∧ Pptx.writable prs = true
          ∧ ¬ write_fails d (Pptx.slides prs)
          ∧ process_ppt pptx_file d
            = ((Some (notes_after d (Pptx.slides prs)),
                Z.of_nat (size (entries_in_range
                                  (length (Pptx.slides prs)) d))), []))
  ∨ (∃ e, e ≠ Py.IndexError ∧ process_ppt pptx_file d = ((None, 0), [e])).
Proof.
  destruct pptx_file as [prs|];
    [|right; by exists Py.PackageNotFoundError].
  destruct (write_fails_cases d (Pptx.slides prs)) as [Hf|Hf].
  { right. exists Py.AttributeError. by rewrite process_ppt_write_fails. }
  destruct (Pptx.writable prs) eqn:Hw.
  - left. exists prs. by rewrite process_ppt_ok.
  - right. exists Py.IOError. by rewrite process_ppt_save_fails.
Qed.

End ApplierResults.

(** C2. Bounds and count of the applier.  On a presentation with [N]
    slides, an entry whose slide number is not in 1..N is passed over:
    taking it out of the dictionary changes neither the output, nor the
    count, nor the errors.  The count that is returned is at least 0, at
    most the number of entries and at most [N]; no slide is ever read out
    of range; and when the package can be written, the count is the
    number of entries whose slide number is in 1..N. *)
Theorem applier_count (prs : Pptx.Package) (d : gmap Z str) :
  let N := length (Pptx.slides prs) in
  let r := process_ppt (Some prs) d in
  let count := snd (fst r) in
  let errors := snd r in
  (∀ k v, d !! k = Some v → ¬ in_range N k →
          process_ppt (Some prs) (delete k d) = r)
  ∧ (0 ≤ count ≤ Z.of_nat (size d) ∧ count ≤ Z.of_nat N)
  ∧ (Py.IndexError ∉ errors)
  ∧ (Pptx.writable prs = true → ¬ write_fails d (Pptx.slides prs) →
     r = ((Some (notes_after d (Pptx.slides prs)),
           Z.of_nat (size (entries_in_range N d))), [])).
Proof.
  intros N r count errors. subst count errors.
  split; [|split; [|split]].
  - intros k v _ Hk. subst r.
    rewrite <-(process_ppt_in_range prs (delete k d)).
    rewrite <-(process_ppt_in_range prs d).
    by rewrite entries_in_range_delete.
  - subst r. pose proof (size_entries_in_range N d).
    pose proof (size_entries_in_range_le N d). subst N.
    destruct (process_ppt_cases (Some prs) d)
      as [(prs' & [= <-] & _ & _ & ->)|(e & _ & ->)]; cbn; lia.
  - subst r.
    destruct (process_ppt_cases (Some prs) d)
      as [(prs' & _ & _ & _ & ->)|(e & He & ->)]; cbn.
    + apply not_elem_of_nil.
    + intros H%list_elem_of_singleton. by apply He.
  - intros Hw Hf. by apply process_ppt_ok.
Qed.

Lemma applier_count_witness :
  process_ppt
    (Some {| Pptx.slides := [Some (lit "a"); Some (lit "b")];
             Pptx.writable := true |})
    (<[5 := lit "Only this"]> {[ 1 := lit "Hello" ]})
  = ((Some [Some (lit "Hello"); Some (lit "b")], 1), []).
Proof.
  destruct (applier_count
              {| Pptx.slides := [Some (lit "a"); Some (lit "b")];
                 Pptx.writable := true |}
              (<[5 := lit "Only this"]> {[ 1 := lit "Hello" ]}))
    as (_ & _ & _ & H).
  rewrite H.
  - vm_compute. reflexivity.
  - reflexivity.
  - apply frames_not_write_fails. repeat constructor; by eexists.
Defined.




(** C9. A failure of the package is all or nothing.  When the upload
    cannot be opened, when the notes of a slide that the dictionary names
    cannot be written, or when the package cannot be written out,
    [process_ppt] shows one error and returns no bytes and the count 0;
    it returns bytes in no other way than with no error. *)
Theorem container_failure_atomic (pptx_file : option Pptx.Package)
    (d : gmap Z str) :
  (pptx_file = None
   ∨ ∃ prs, pptx_file = Some prs
            ∧ (write_fails d (Pptx.slides prs) ∨ Pptx.writable prs = false)) →
  (∃ e, process_ppt pptx_file d = ((None, 0), [e]))
  ∧ ∀ out n errs, process_ppt pptx_file d = ((out, n), errs) →
                  out = None ∧ n = 0 ∧ length errs = 1%nat.
Proof.
  intros Hfail.
  assert (∃ e, process_ppt pptx_file d = ((None, 0), [e])) as [e He].
  { destruct Hfail as [->|(prs & -> & [Hf|Hw])].
    - eexists. apply process_ppt_unopened.
    - eexists. by apply process_ppt_write_fails.
    - destruct (write_fails_cases d (Pptx.slides prs)).
      + eexists. by apply process_ppt_write_fails.
      + eexists. by apply process_ppt_save_fails. }
  split; [by exists e|]. intros out n errs. rewrite He. by intros [= <- <- <-].
Qed.

Lemma container_failure_atomic_witness :
  ∃ e,
    process_ppt
      (Some {| Pptx.slides := [Some (lit "a"); None];
               Pptx.writable := true |})
      (<[2 := lit "World"]> {[ 1 := lit "Hello" ]})
    = ((None, 0), [e]).
Proof.
  apply (container_failure_atomic
           (Some {| Pptx.slides := [Some (lit "a"); None];
                    Pptx.writable := true |})
           (<[2 := lit "World"]> {[ 1 := lit "Hello" ]})).
  right. eexists. split; [reflexivity|]. left.
  exists 2, (lit "World"). split; [reflexivity|]. split; [|reflexivity].
  unfold in_range. cbn. lia.
Defined.

(** * Main results on the segmenter *)

Section Blank.

Implicit Types (s : str) (c : ascii).

(** A blank is neither [<] nor, letter case ignored, [#]. *)
Lemma isspace_classes c :
  Py.isspace c →
  Ascii.eqb c "<" = false
  ∧ Ascii.eqb (Py.lower "#") (Py.lower c) = false.
Proof. each_character c; tauto. Qed.

Lemma blank_tag_free s : Forall Py.isspace s → tag_free s.
Proof.
  induction 1 as [|c s Hc _ IH]; [done|]. split; [|done].
  cbn. by destruct (isspace_classes c Hc) as [-> _].
Qed.

Lemma blank_finditer_from pos s :
  Forall Py.isspace s → Re.finditer_from pos 0 s = [].
Proof.
  intros H. revert pos. induction H as [|c s Hc _ IH]; intros pos; [done|].
  cbn [Re.finditer_from]. unfold Re.marker_at.
  change (lit "###") with ["#"; "#"; "#"]%char. cbn [Re.literal].
  destruct (isspace_classes c Hc) as [_ ->]. apply IH.
Qed.

Lemma blank_lstrip s : Forall Py.isspace s → Py.lstrip s = [].
Proof.
  induction 1 as [|c s Hc _ IH]; [done|]. cbn.
  apply Is_true_true in Hc. by rewrite Hc.
Qed.

End Blank.

(** C10. The empty script and the blank script.  A script made of
    blanks only, the empty one among them, gives the dictionary with the
    one entry 1 with the empty text; run on a package that can be written
    and whose first slide has a notes frame, it puts the empty text in
    the place of the notes of slide 1 and counts 1. *)
Theorem empty_script (s : str) :
  Forall Py.isspace s →
  parse_script s = inr {[ 1 := [] ]}
  ∧ ∀ (prs : Pptx.Package) (old : str),
      Pptx.writable prs = true →
      Pptx.slides prs !! 0%nat = Some (Some old) →
      sync (Some prs) s
      = inr ((Some (<[0%nat := Some []]> (Pptx.slides prs)), 1), []).
Proof.
  intros Hs.
  assert (parse_script s = inr {[ 1 := [] ]}) as Hparse.
  { pose proof (sub_tags_tag_free s (blank_tag_free s Hs)) as Ht.
    rewrite parse_script_fallback; rewrite Ht.
    - unfold Py.strip. by rewrite blank_lstrip.
    - by apply blank_finditer_from. }
  split; [done|]. intros prs old Hw Hold. unfold sync. rewrite Hparse.
  cbn [mbind exn_bind mret exn_ret]. f_equal.
  unfold process_ppt, process_ppt_try.
  cbn [Pptx.Presentation mbind exn_bind]. rewrite map_to_list_singleton.
  rewrite (apply_items_hit _ _ _ _ _ old); [|unfold in_range|done].
  - cbn. unfold Pptx.save. cbn. by rewrite Hw.
  - apply lookup_lt_Some in Hold. lia.
Qed.

Lemma empty_script_witness :
  sync (Some {| Pptx.slides := [Some (lit "old notes"); None];
                Pptx.writable := true |})
       [" "%char; LF]
  = inr ((Some [Some []; None], 1), []).
Proof.
  refine (proj2 (empty_script [" "%char; LF] _)
            {| Pptx.slides := [Some (lit "old notes"); None];
               Pptx.writable := true |} (lit "old notes") eq_refl eq_refl).
  repeat constructor.
Defined.

(** C8, as the code has it.  [parse_script] raises in one case only:
    when the digits of a marker of the stripped text are more than
    [int] converts, it raises [ValueError] and returns no dictionary.
    For every other input, the empty one, one without marker and one
    with malformed markers among them, it returns a dictionary, and this
    dictionary is not empty. *)
Theorem segmenter_returns_or_raises (s : str) :
  (convertible s → ∃ d : gmap Z str, parse_script s = inr d ∧ d ≠ ∅)
  ∧ (¬ convertible s → parse_script s = inl Py.ValueError)
  ∧ (Re.finditer (Re.sub_tags s) = [] → convertible s).
Proof.
  split; [|split; [apply parse_script_raises|apply fallback_convertible]].
  intros Hlen. destruct (Re.finditer (Re.sub_tags s)) as [|m ms] eqn:E.
  - eexists. split; [by apply parse_script_fallback|].
    apply map_non_empty_singleton.
  - eexists. split; [apply parse_script_markers; [by rewrite E|done]|].
    rewrite E. intros H.
    assert (dom (segmented (Re.sub_tags s) (m :: ms)) = ∅) as Hd
      by by rewrite H, dom_empty_L.
    rewrite segmented_dom in Hd. set_solver.
Qed.

Lemma segmenter_returns_or_raises_witness :
  (∃ d : gmap Z str, parse_script scenario1_script = inr d ∧ d ≠ ∅)
  ∧ (∃ d : gmap Z str, parse_script [] = inr d ∧ d ≠ ∅).
Proof.
  split.
  - apply (proj1 (segmenter_returns_or_raises scenario1_script)).
    apply (bool_decide_unpack _). vm_compute. exact I.
  - apply (proj1 (segmenter_returns_or_raises [])).
    apply (proj2 (proj2 (segmenter_returns_or_raises []))). reflexivity.
Defined.

(** C8, as it is stated, fails: on a marker with 4301 digits
    [parse_script] raises and returns no dictionary. *)
Lemma segmenter_total_counterexample :
  parse_script (lit "### Slide " ++ replicate (Z.to_nat 4301) "1"%char)
  = inl Py.ValueError
  ∧ ¬ ∃ d : gmap Z str,
        parse_script (lit "### Slide " ++ replicate (Z.to_nat 4301) "1"%char)
        = inr d.
Proof.
  assert (parse_script (lit "### Slide " ++ replicate (Z.to_nat 4301) "1"%char)
          = inl Py.ValueError) as H by (vm_compute; reflexivity).
  split; [done|]. intros [d Hd]. congruence.
Qed.

(** C6, as the code has it.  Every key of the dictionary of
    [parse_script] is at least 0; a key is the number of a marker of the
    stripped text, or 1 when there is no marker, so that the key 0 comes
    from a marker that declares the number 0 and from nothing else.
    There is no dictionary in one case only: [parse_script] raises when
    [int] does not accept the digits of a marker. *)
Theorem keys_nonnegative (s : str) :
  (¬ convertible s ∧ parse_script s = inl Py.ValueError)
  ∨ ∃ d : gmap Z str,
      parse_script s = inr d
      ∧ ∀ k v, d !! k = Some v →
          0 ≤ k
          ∧ (k = 0 →
             ∃ m, m ∈ Re.finditer (Re.sub_tags s) ∧ slide_number m = 0)
          ∧ (Re.finditer (Re.sub_tags s) = [] → k = 1).
Proof.
  destruct (convertible_cases s) as [Hlen|Hlen];
    [right|left; split; [done|by apply parse_script_raises]].
  destruct (Re.finditer (Re.sub_tags s)) as [|m0 ms] eqn:E.
  - eexists. split; [by apply parse_script_fallback|].
    intros k v [<- _]%lookup_singleton_Some. split; [lia|done].
  - eexists. split; [apply parse_script_markers; [by rewrite E|done]|].
    rewrite E.
    intros k v (i & m & Hm%list_elem_of_lookup_2 & <- & _)%segmented_lookup_Some.
    split; [|split; [eauto|done]]. apply digits_value_nonneg.
    pose proof (finditer_marker (Re.sub_tags s)) as H. rewrite E in H.
    rewrite Forall_forall in H. apply H in Hm.
    by apply marker_of_digits in Hm as [_ ?].
Qed.

(** C6, as it is stated, fails: the marker [### Slide 0] gives the
    key 0. *)
Lemma keys_positive_counterexample :
  parse_script (lit "### Slide 0") = inr {[ 0 := [] ]}
  ∧ ¬ (∀ k v, ({[ 0 := [] ]} : gmap Z str) !! k = Some v → 1 ≤ k).
Proof.
  split; [vm_compute; reflexivity|].
  intros H. specialize (H 0 [] (lookup_singleton_eq _ _)). lia.
Qed.





(** C4, as the code has it.  When the stripped text has no marker,
    [parse_script] returns the dictionary with the one entry 1, whose
    text is the stripped text, trimmed; it is the trimmed input when the
    input has no tag to strip. *)
Theorem fallback_no_marker (s : str) :
  Re.finditer (Re.sub_tags s) = [] →
  parse_script s = inr {[ 1 := Py.strip (Re.sub_tags s) ]}
  ∧ (tag_free s → parse_script s = inr {[ 1 := Py.strip s ]}).
Proof.
  intros E. split; [by apply parse_script_fallback|].
  intros Hs. rewrite parse_script_fallback by done.
  by rewrite sub_tags_tag_free.
Qed.

Lemma fallback_no_marker_witness :
  parse_script (lit "  Just some text, no markers ")
  = inr {[ 1 := lit "Just some text, no markers" ]}.
Proof.
  destruct (fallback_no_marker (lit "  Just some text, no markers ")) as [H _].
  - vm_compute. reflexivity.
  - rewrite H. vm_compute. reflexivity.
Defined.

(** C4, as it is stated, fails: the input [<b>hi] has no marker, before
    or after stripping, and the text of entry 1 is [hi], not the
    input. *)
Lemma fallback_trimmed_input_counterexample :
  Re.finditer (lit "<b>hi") = []
  ∧ Re.finditer (Re.sub_tags (lit "<b>hi")) = []
  ∧ parse_script (lit "<b>hi") = inr {[ 1 := lit "hi" ]}
  ∧ parse_script (lit "<b>hi") ≠ inr {[ 1 := Py.strip (lit "<b>hi") ]}.
Proof.
  split; [|split; [|split]]; try (vm_compute; reflexivity).
  intros H.
  assert (parse_script (lit "<b>hi") = inr {[ 1 := lit "hi" ]}) as H'
    by (vm_compute; reflexivity).
  rewrite H' in H.
  assert (({[ 1 := lit "hi" ]} : gmap Z str) !! 1
          = ({[ 1 := Py.strip (lit "<b>hi") ]} : gmap Z str) !! 1) as E
    by congruence.
  rewrite !lookup_singleton_eq in E. vm_compute in E. discriminate.
Qed.

Section Stripping.

Implicit Types (s t pre w post v : str) (d : gmap Z str) (k : Z).

(** Before the first [<] nothing is deleted. *)
Lemma sub_tags_app_plain pre t :
  "<"%char ∉ pre → Re.sub_tags (pre ++ t) = pre ++ Re.sub_tags t.
Proof.
  induction pre as [|c pre IH]; [done|].
  intros [Hc Hpre]%not_elem_of_cons. cbn [app].
  rewrite sub_tags_keep, IH; [done..|]. cbn.
  by destruct (Ascii.eqb_spec c "<") as [->|].
Qed.

(** Every note text is a piece of the stripped text. *)
Lemma parse_script_substring s d k v :
  parse_script s = inr d → d !! k = Some v → substring v (Re.sub_tags s).
Proof.
  intros Hd. pose proof (parse_script_returns _ _ Hd) as Hlen. revert Hd.
  destruct (Re.finditer (Re.sub_tags s)) as [|m0 ms] eqn:E.
  - rewrite parse_script_fallback by done.
    intros [= <-] [_ <-]%lookup_singleton_Some. apply substring_strip.
  - rewrite parse_script_markers; [|by rewrite E|done].
    intros [= <-] (i & m & _ & _ & ->)%segmented_lookup_Some.
    eapply substring_trans; [apply substring_strip|apply substring_slice].
Qed.

End Stripping.

(** C5. Markup stripping.  Every substring of the input that matches
    [<[^>]+>] is deleted before the markers are looked for: of an input
    [pre ++ w ++ post] with the tag [w], what is left is a part of [pre]
    followed by what is left of [post], and the whole of [pre] when [pre]
    has no [<]; the stripped text has no substring that matches the
    pattern, the markers are looked for in it alone, and every note text
    that is returned is a piece of it, hence without a tag. *)
Theorem markup_stripping :
  (∀ pre w post : str,
     is_tag w →
     (∃ kept, kept `sublist_of` pre
              ∧ Re.sub_tags (pre ++ w ++ post) = kept ++ Re.sub_tags post)
     ∧ ("<"%char ∉ pre →
        Re.sub_tags (pre ++ w ++ post) = pre ++ Re.sub_tags post))
  ∧ (∀ s : str,
       ¬ has_tag (Re.sub_tags s)
       ∧ parse_script s = parse_script (Re.sub_tags s))
  ∧ (∀ (s : str) (d : gmap Z str) k v,
       parse_script s = inr d → d !! k = Some v →
       substring v (Re.sub_tags s) ∧ ¬ has_tag v).
Proof.
  split; [|split].
  - intros pre w post Hw. split; [by apply sub_tags_delete|].
    intros Hpre. rewrite sub_tags_app_plain by done. f_equal.
    rewrite (sub_tags_tag_at _ _ (tag_at_tag w post Hw)).
    by rewrite drop_app_length.
  - intros s. split; [apply sub_tags_no_tag|].
    unfold parse_script. by rewrite sub_tags_idemp.
  - intros s d k v Hd Hv.
    pose proof (parse_script_substring s d k v Hd Hv) as Hsub.
    split; [done|]. intros Ht. apply (sub_tags_no_tag s).
    by eapply has_tag_substring.
Qed.

Lemma markup_stripping_witness :
  Re.sub_tags (lit "Hello " ++ lit "<break time=1.0s />" ++ lit " world")
  = lit "Hello " ++ Re.sub_tags (lit " world")
  ∧ ¬ has_tag (lit "Hello  world").
Proof.
  destruct markup_stripping as (H1 & _ & H3). split.
  - destruct (H1 (lit "Hello ") (lit "<break time=1.0s />") (lit " world"))
      as [_ H].
    + exists (lit "break time=1.0s /"). split; [reflexivity|].
      split; [discriminate|].
      rewrite list_elem_of_In. cbn. intuition discriminate.
    + apply H. rewrite list_elem_of_In. cbn. intuition discriminate.
  - refine (proj2 (H3 (lit "Hello <b> world") {[ 1 := lit "Hello  world" ]}
                      1 (lit "Hello  world") _ _)).
    + vm_compute. reflexivity.
    + vm_compute. reflexivity.
Defined.

(** * Further properties of the segmenter *)


(** X1. The note texts are trimmed.  Every text of the dictionary of
    [parse_script] starts and ends with a character that is not a blank,
    or is empty; trimming it again leaves it as it is.  There is no
    dictionary in one case only: [parse_script] raises when [int] does
    not accept the digits of a marker. *)
Theorem note_texts_trimmed (s : str) :
  (¬ convertible s ∧ parse_script s = inl Py.ValueError)
  ∨ ∃ d : gmap Z str,
      parse_script s = inr d
      ∧ ∀ k v, d !! k = Some v → trimmed v ∧ Py.strip v = v.
Proof.
  destruct (convertible_cases s) as [Hlen|Hlen];
    [right|left; split; [done|by apply parse_script_raises]].
  assert (∀ x, trimmed (Py.strip x) ∧ Py.strip (Py.strip x) = Py.strip x) as H.
  { intros x. split; [apply strip_trimmed|apply trimmed_strip, strip_trimmed]. }
  destruct (Re.finditer (Re.sub_tags s)) as [|m0 ms] eqn:E.
  - eexists. split; [by apply parse_script_fallback|].
    intros k v [_ <-]%lookup_singleton_Some. apply H.
  - eexists. split; [apply parse_script_markers; [by rewrite E|done]|].
    rewrite E. intros k v (i & m & _ & _ & ->)%segmented_lookup_Some.
    apply H.
Qed.

Section OnlyTags.

Implicit Types (s : str).

Lemma no_tag_tag_free s : ¬ has_tag s → tag_free s.
Proof.
  induction s as [|c s IH]; [done|]. intros H. split.
  - destruct (Re.tag_at (c :: s)) as [n|] eqn:E; [|done].
    destruct H. apply tag_at_Some in E as [_ E].
    eexists. split; [exact E|apply substring_take].
  - apply IH. intros H'. apply H.
    eapply has_tag_substring; [|exact H']. apply (substring_drop 1 (c :: s)).
Qed.

End OnlyTags.

(** X4. Nothing but tags is deleted.  A text in which no substring
    matches [<[^>]+>], as one with a [<] that no [>] follows or with
    [<>], comes out of the stripping as it went in; hence stripping twice
    is stripping once, and what is left is always made of characters of
    the input in their order. *)
Theorem only_tags_deleted (s : str) :
  (¬ has_tag s → Re.sub_tags s = s)
  ∧ Re.sub_tags (Re.sub_tags s) = Re.sub_tags s
  ∧ Re.sub_tags s `sublist_of` s.
Proof.
  split; [|split].
  - intros H. by apply sub_tags_tag_free, no_tag_tag_free.
  - apply sub_tags_idemp.
  - apply sub_tags_sublist.
Qed.

Lemma only_tags_deleted_witness :
  Re.sub_tags (lit "a>b, <> and 1 < 2") = lit "a>b, <> and 1 < 2".
Proof.
  refine (proj1 (only_tags_deleted (lit "a>b, <> and 1 < 2")) _).
  apply tag_free_no_tag. vm_compute. tauto.
Defined.

(** * Further properties of the applier *)

Section Compose.

Implicit Types (d : gmap Z str) (prs : Pptx.Package).
Implicit Types (slides : list (option str)) (k : Z) (v : str).

Lemma notes_after_union d1 d2 slides :
  notes_after d2 (notes_after d1 slides) = notes_after (d2 ∪ d1) slides.
Proof.
  apply list_eq. intros j. unfold notes_after. rewrite !list_lookup_imap.
  destruct (slides !! j) as [old|]; [cbn|done]. f_equal.
  rewrite lookup_union. by destruct (d2 !! _), (d1 !! _).
Qed.

Lemma write_fails_notes_after d1 d2 slides :
  write_fails d2 (notes_after d1 slides) → write_fails d2 slides.
Proof.
  intros (k & v & Hkv & Hin & Hm). exists k, v. split; [done|].
  unfold notes_after in *. rewrite length_imap in Hin. split; [done|].
  unfold frame_missing in *. rewrite list_lookup_imap in Hm.
  destruct (slides !! Z.to_nat (k - 1)) as [old|]; [|done]. cbn in Hm.
  destruct (d1 !! _); [done|]. done.
Qed.

Lemma notes_after_none_in_range d slides :
  (∀ k v, d !! k = Some v → ¬ in_range (length slides) k) →
  notes_after d slides = slides.
Proof.
  intros H. apply list_eq. intros j. unfold notes_after.
  rewrite list_lookup_imap. destruct (slides !! j) as [old|] eqn:Hj; [cbn|done].
  destruct (d !! (Z.of_nat j + 1)) as [v|] eqn:Hd; [|done].
  destruct (H _ _ Hd). apply lookup_lt_Some in Hj. unfold in_range. lia.
Qed.

End Compose.

(** X7. Two runs compose.  When a package can be written and the notes of
    every slide that [d1] or [d2] names can be written, running
    [process_ppt] with [d1] and then, on its output, with [d2] gives the
    notes of one run with the two dictionaries merged, [d2] first; the
    count of the second run is that of [d2] alone.  With [d2 = d1] the
    second run returns what the first one returned. *)
Theorem apply_compose (prs : Pptx.Package) (d1 d2 : gmap Z str) :
  Pptx.writable prs = true →
  ¬ write_fails d1 (Pptx.slides prs) → ¬ write_fails d2 (Pptx.slides prs) →
  ∃ out1 n1,
    process_ppt (Some prs) d1 = ((Some out1, n1), [])
    ∧ process_ppt (Some {| Pptx.slides := out1; Pptx.writable := true |}) d2
      = ((Some (notes_after (d2 ∪ d1) (Pptx.slides prs)),
          Z.of_nat (size (entries_in_range (length (Pptx.slides prs)) d2))),
         [])
    ∧ process_ppt (Some {| Pptx.slides := out1; Pptx.writable := true |}) d1
      = ((Some out1, n1), []).
Proof.
  intros Hw H1 H2. eexists _, _. split; [by apply process_ppt_ok|].
  assert (∀ d, ¬ write_fails d (Pptx.slides prs) →
            process_ppt (Some {| Pptx.slides := notes_after d1 (Pptx.slides prs);
                                 Pptx.writable := true |}) d
            = ((Some (notes_after (d ∪ d1) (Pptx.slides prs)),
                Z.of_nat (size (entries_in_range
                                  (length (Pptx.slides prs)) d))), [])) as H.
  { intros d Hd.
    rewrite process_ppt_ok; cbn [Pptx.slides Pptx.writable];
      [|by intros ?%write_fails_notes_after|done].
    rewrite notes_after_union.
    by assert (length (notes_after d1 (Pptx.slides prs))
               = length (Pptx.slides prs)) as -> by apply length_imap. }
  split; [by apply H|]. rewrite (H d1 H1). by rewrite (idemp_L (∪) d1).
Qed.

Lemma apply_compose_witness :
  ∃ out1 n1,
    process_ppt (deck [Some []; Some []; None]) {[ 1 := lit "a" ]}
    = ((Some out1, n1), [])
    ∧ process_ppt (Some {| Pptx.slides := out1; Pptx.writable := true |})
        (<[2 := lit "c"]> {[ 1 := lit "b" ]})
      = ((Some [Some (lit "b"); Some (lit "c"); None], 2), []).
Proof.
  destruct (apply_compose {| Pptx.slides := [Some []; Some []; None];
                             Pptx.writable := true |}
              {[ 1 := lit "a" ]} (<[2 := lit "c"]> {[ 1 := lit "b" ]}))
    as (out1 & n1 & H1 & H2 & _).
  - reflexivity.
  - intros (k & v & [<- _]%lookup_singleton_Some & _ & Hm). discriminate.
  - intros (k & v & Hkv & _ & Hm).
    apply lookup_insert_Some in Hkv as [[<- _]|[_ [<- _]%lookup_singleton_Some]];
      discriminate.
  - exists out1, n1. split; [exact H1|]. rewrite H2. vm_compute. reflexivity.
Defined.

(** X9. A script for other slides changes nothing.  When no key of the
    dictionary is the number of a slide (the empty dictionary, the key 0,
    keys beyond the last slide) and the package can be written,
    [process_ppt] returns the slides as they were, with the count 0 and
    no error, whether or not the slides have a notes frame. *)
Theorem no_slide_named (prs : Pptx.Package) (d : gmap Z str) :
  (∀ k v, d !! k = Some v → ¬ in_range (length (Pptx.slides prs)) k) →
  Pptx.writable prs = true →
  process_ppt (Some prs) d = ((Some (Pptx.slides prs), 0), []).
Proof.
  intros H Hw. rewrite process_ppt_ok; [|intros (k & v & Hkv & Hin & _)|done].
  - rewrite notes_after_none_in_range by done.
    assert (entries_in_range (length (Pptx.slides prs)) d = ∅) as ->; [|done].
    apply map_empty. intros k. apply map_lookup_filter_None. right.
    intros v Hv. by apply H in Hv.
  - by apply H in Hkv.
Qed.

Lemma no_slide_named_witness :
  process_ppt (deck [None; Some (lit "b")])
    (<[0 := lit "zero"]> {[ 5 := lit "Only this" ]})
  = ((Some [None; Some (lit "b")], 0), []).
Proof.
  apply (no_slide_named {| Pptx.slides := [None; Some (lit "b")];
                           Pptx.writable := true |}); [|reflexivity].
  intros k v Hkv. unfold in_range. cbn.
  apply lookup_insert_Some in Hkv as [[<- _]|[_ [<- _]%lookup_singleton_Some]];
    lia.
Defined.

(** X11. When bytes are returned.  [process_ppt] returns bytes, and then
    with no error, exactly when the upload can be opened, the package can
    be written and no entry of the dictionary names a slide whose notes
    cannot be written; in every other case it returns no bytes, the
    count 0 and one error. *)
Theorem bytes_returned_iff (pptx_file : option Pptx.Package)
    (d : gmap Z str) :
  ((∃ data n, process_ppt pptx_file d = ((Some data, n), []))
   ↔ ∃ prs, pptx_file = Some prs ∧ Pptx.writable prs = true
            ∧ ¬ write_fails d (Pptx.slides prs))
  ∧ ((∃ e, process_ppt pptx_file d = ((None, 0), [e]))
     ↔ ¬ ∃ prs, pptx_file = Some prs ∧ Pptx.writable prs = true
                ∧ ¬ write_fails d (Pptx.slides prs)).
Proof.
  destruct (process_ppt_cases pptx_file d)
    as [(prs & -> & Hw & Hf & E)|(e & _ & E)].
  - split; split.
    + intros _. by exists prs.
    + intros _. by eexists _, _.
    + intros (e & He). rewrite E in He. discriminate.
    + intros H. destruct H. by exists prs.
  - assert (¬ ∃ prs, pptx_file = Some prs ∧ Pptx.writable prs = true
                     ∧ ¬ write_fails d (Pptx.slides prs)) as Hno.
    { intros (prs & -> & Hw & Hf).
      rewrite process_ppt_ok in E by done. discriminate. }
    split; split.
    + intros (data & n & H). rewrite E in H. discriminate.
    + intros H. by destruct Hno.
    + done.
    + intros _. by exists e.
Qed.

Lemma apply_items_Permutation_witness :
  apply_items [(2, lit "b"); (7, lit "x"); (1, lit "a")] [Some []; Some []] 0
  = apply_items [(1, lit "a"); (2, lit "b"); (7, lit "x")] [Some []; Some []] 0.
Proof.
  apply apply_items_Permutation.
  - cbn. repeat constructor; rewrite ?list_elem_of_In; cbn; intuition lia.
  - exact (Permutation_app_comm [(2, lit "b"); (7, lit "x")] [(1, lit "a")]).
Defined.

(** * The text before the first marker, and the markers in the notes *)

Section Preamble.

Implicit Types (s t pre v : str) (c : ascii) (k pos skip i : nat).
Implicit Types (m : Re.Match) (ms l : list Re.Match) (result : gmap Z str).

Local Open Scope nat_scope.

Lemma hash_lower c :
  c ≠ "#"%char → Ascii.eqb (Py.lower "#") (Py.lower c) = false.
Proof. each_character c; intros H; first [reflexivity|by destruct H]. Qed.

Lemma marker_at_not_hash c s : c ≠ "#"%char → Re.marker_at (c :: s) = None.
Proof.
  intros Hc. unfold Re.marker_at.
  change (lit "###") with ["#"; "#"; "#"]%char. cbn [Re.literal].
  by rewrite hash_lower.
Qed.

Lemma finditer_from_preamble pre t pos :
  "#"%char ∉ pre →
  Re.finditer_from pos 0 (pre ++ t) = Re.finditer_from (pos + length pre) 0 t.
Proof.
  revert pos. induction pre as [|c pre IH]; intros pos.
  { intros _. cbn. by rewrite Nat.add_0_r. }
  intros [Hc Hpre]%not_elem_of_cons. cbn [app Re.finditer_from].
  rewrite marker_at_not_hash by done. rewrite IH by done.
  f_equal. cbn. lia.
Qed.

Lemma finditer_from_shift k pos skip s :
  Re.finditer_from (k + pos) skip s = shift k <$> Re.finditer_from pos skip s.
Proof.
  revert pos skip. induction s as [|c s IH]; intros pos skip; [done|].
  cbn [Re.finditer_from]. replace (S (k + pos)) with (k + S pos) by lia.
  destruct skip; [|apply IH].
  destruct (Re.marker_at (c :: s)) as [[n d]|]; [|apply IH].
  rewrite fmap_cons, IH. f_equal. unfold shift. cbn. f_equal. lia.
Qed.

Lemma slice_preamble pre t a b :
  Py.slice (pre ++ t) (length pre + a) (length pre + b) = Py.slice t a b.
Proof.
  unfold Py.slice. rewrite drop_app_add. f_equal. lia.
Qed.

Lemma note_text_shift pre t ms i m :
  note_text (pre ++ t) (shift (length pre) <$> ms) i (shift (length pre) m)
  = note_text t ms i m.
Proof.
  unfold note_text, segment_end. rewrite list_lookup_fmap.
  destruct (ms !! S i) as [next|]; cbn -[Py.slice Py.strip].
  - by rewrite slice_preamble.
  - by rewrite length_app, slice_preamble.
Qed.

Lemma foldl_assign_shift pre t ms l i result :
  foldl (assign (pre ++ t) (shift (length pre) <$> ms)) result
    (enumerate_from i (shift (length pre) <$> l))
  = foldl (assign t ms) result (enumerate_from i l).
Proof.
  revert i result. induction l as [|m l IH]; intros i result; [done|].
  cbn. rewrite IH. f_equal. unfold assign. cbn [fst snd].
  by rewrite note_text_shift.
Qed.

Lemma segmented_shift pre t ms :
  segmented (pre ++ t) (shift (length pre) <$> ms) = segmented t ms.
Proof. apply foldl_assign_shift. Qed.

End Preamble.

(** X2. The text before the first marker is dropped.  When the script
    has a marker, putting in front of it a text without [<] and without
    [#], which can hold neither a tag nor a marker, changes nothing in
    the dictionary: what is written before the first marker reaches no
    slide. *)
Theorem preamble_dropped (pre t : str) :
  "<"%char ∉ pre → "#"%char ∉ pre →
  Re.finditer (Re.sub_tags t) ≠ [] →
  parse_script (pre ++ t) = parse_script t.
Proof.
  intros Hlt Hhash Hne.
  assert (Re.finditer (Re.sub_tags (pre ++ t))
          = shift (length pre) <$> Re.finditer (Re.sub_tags t)) as E.
  { rewrite sub_tags_app_plain by done. unfold Re.finditer.
    rewrite finditer_from_preamble by done. cbn [Nat.add].
    rewrite <-(finditer_from_shift (length pre) 0 0). f_equal. lia. }
  assert (convertible (pre ++ t) ↔ convertible t) as Hlen.
  { unfold convertible. rewrite E, Forall_fmap. done. }
  destruct (convertible_cases t) as [H|H].
  - rewrite (parse_script_markers t) by done.
    rewrite parse_script_markers; rewrite ?E.
    + rewrite sub_tags_app_plain by done. by rewrite segmented_shift.
    + by destruct (Re.finditer (Re.sub_tags t)).
    + by apply Hlen.
  - rewrite (parse_script_raises t) by done.
    apply parse_script_raises. by rewrite Hlen.
Qed.

Lemma preamble_dropped_witness :
  parse_script (lit "Notes for the speaker. " ++ scenario1_script)
  = parse_script scenario1_script.
Proof.
  apply preamble_dropped.
  - rewrite list_elem_of_In. cbn. intuition discriminate.
  - rewrite list_elem_of_In. cbn. intuition discriminate.
  - vm_compute. discriminate.
Defined.

Section LeadingZeros.

Implicit Types (s t u w d dg r rest : str) (c : ascii) (k n pos skip i : nat).
Implicit Types (m : Re.Match) (ms l : list Re.Match) (result : gmap Z str).

Local Open Scope nat_scope.

Lemma finditer_from_skip pos skip s :
  skip ≤ length s →
  Re.finditer_from pos skip s = Re.finditer_from (pos + skip) 0 (drop skip s).
Proof.
  revert pos skip. induction s as [|c s IH]; intros pos skip Hlen.
  { by destruct skip. }
  destruct skip as [|k]; [by rewrite Nat.add_0_r|].
  cbn [Re.finditer_from drop]. cbn in Hlen. rewrite IH by lia.
  f_equal. lia.
Qed.

(** The matches of a text that starts with a marker. *)
Lemma finditer_head w d rest :
  is_marker w d → (∀ c r, rest = c :: r → ¬ Py.isdecimal c) →
  Re.finditer (w ++ rest)
  = {| Re.m_start := 0; Re.m_end := length w; Re.group1 := d |}
      :: (shift (length w) <$> Re.finditer rest).
Proof.
  intros Hw Hrest. pose proof (marker_at_complete _ _ _ Hw Hrest) as Hm.
  pose proof (marker_at_Some _ _ _ Hm) as [_ [Hpos _]].
  unfold Re.finditer. destruct w as [|c w]; [cbn in Hpos; lia|].
  cbn [app Re.finditer_from]. change (c :: w ++ rest) with ((c :: w) ++ rest).
  rewrite Hm. cbn [length Nat.pred Nat.add]. f_equal.
  rewrite finditer_from_skip by (rewrite length_app; lia).
  rewrite drop_app_length.
  rewrite <-(finditer_from_shift (S (length w)) 0 0). f_equal. lia.
Qed.

Lemma digits_value_zeros n d :
  digits_value (replicate n "0"%char ++ d) = digits_value d.
Proof.
  unfold digits_value. rewrite foldl_app. f_equal.
  induction n as [|n IH]; [done|]. cbn. apply IH.
Qed.

Lemma shift_shift a b m : shift a (shift b m) = shift (a + b) m.
Proof. unfold shift. cbn. f_equal; lia. Qed.

(** Of the first match, the dictionary depends on its end and on its
    number only. *)
Lemma foldl_assign_head t m0 m0' ms l i result :
  foldl (assign t (m0 :: ms)) result (enumerate_from (S i) l)
  = foldl (assign t (m0' :: ms)) result (enumerate_from (S i) l).
Proof.
  revert i result. induction l as [|m l IH]; intros i result; [done|].
  cbn [enumerate_from foldl]. rewrite IH. done.
Qed.

Lemma segmented_head t m0 m0' ms :
  Re.m_end m0 = Re.m_end m0' → slide_number m0 = slide_number m0' →
  segmented t (m0 :: ms) = segmented t (m0' :: ms).
Proof.
  intros He Hk. unfold segmented, enumerate. cbn [enumerate_from foldl].
  rewrite (foldl_assign_head t m0 m0'). f_equal.
  unfold assign, note_text, segment_end. cbn. by rewrite He, Hk.
Qed.

(** The dictionary of a text that starts with a marker, in terms of the
    text [dg ++ r] behind the head of the marker. *)
Lemma segmented_marker_first w0 d dg r :
  is_marker (w0 ++ dg) d → (∀ c r', r = c :: r' → ¬ Py.isdecimal c) →
  segmented (w0 ++ dg ++ r) (Re.finditer (w0 ++ dg ++ r))
  = segmented (dg ++ r)
      ({| Re.m_start := 0; Re.m_end := length dg; Re.group1 := d |}
         :: (shift (length dg) <$> Re.finditer r)).
Proof.
  intros Hw Hr. rewrite (app_assoc w0 dg r) at 2.
  rewrite (finditer_head _ d) by done.
  rewrite <-(segmented_shift w0 (dg ++ r)). rewrite fmap_cons.
  rewrite <-list_fmap_compose.
  rewrite (segmented_head _ _
             (shift (length w0)
                {| Re.m_start := 0; Re.m_end := length dg; Re.group1 := d |}));
    [|cbn; rewrite length_app; lia|done].
  do 2 f_equal. apply list_fmap_ext. intros _ m _. cbn.
  by rewrite shift_shift, length_app.
Qed.

Lemma decimal_kept c t :
  Py.isdecimal c → Re.sub_tags (c :: t) = c :: Re.sub_tags t.
Proof.
  intros Hc. apply sub_tags_keep. cbn.
  destruct (Ascii.eqb_spec c "<") as [->|]; done.
Qed.

(** What [parse_script] returns on a script whose stripped text starts
    with a marker. *)
Lemma parse_script_marker_first s w0 d dg r :
  Re.sub_tags s = w0 ++ dg ++ r → is_marker (w0 ++ dg) d →
  (∀ c r', r = c :: r' → ¬ Py.isdecimal c) →
  (convertible s
   ↔ (Z.of_nat (length d) ≤ Py.int_max_str_digits)%Z
     ∧ Forall int_accepts (Re.finditer r))
  ∧ (convertible s →
     parse_script s
     = inr (segmented (dg ++ r)
              ({| Re.m_start := 0; Re.m_end := length dg; Re.group1 := d |}
                 :: (shift (length dg) <$> Re.finditer r)))).
Proof.
  intros Hs Hw Hr.
  assert (Re.finditer (Re.sub_tags s)
          = {| Re.m_start := 0; Re.m_end := length (w0 ++ dg);
               Re.group1 := d |}
              :: (shift (length (w0 ++ dg)) <$> Re.finditer r)) as E.
  { rewrite Hs, app_assoc. by apply finditer_head. }
  split.
  - unfold convertible. rewrite E, Forall_cons, Forall_fmap. done.
  - intros Hlen. rewrite parse_script_markers; [|by rewrite E|done].
    rewrite Hs. by rewrite (segmented_marker_first w0 d).
Qed.

End LeadingZeros.

(** X3. Zeros in front of a slide number.  When a script that starts
    with the marker [### Slide] and a number with [n] more zeros in
    front is given a dictionary, the script without these zeros is given
    the same dictionary: [### Slide 007] and [### Slide 7] name the same
    slide. *)
Theorem leading_zeros_same_slide (n : nat) (c : ascii) (t : str)
    (d : gmap Z str) :
  Py.isdecimal c →
  parse_script (lit "### Slide " ++ replicate n "0"%char ++ c :: t) = inr d →
  parse_script (lit "### Slide " ++ c :: t) = inr d.
Proof.
  intros Hc HA.
  destruct (Re.span Py.isdecimal (Re.sub_tags t)) as [dg r] eqn:E.
  apply span_spec in E as (Ht & Hdg & Hr).
  assert (Forall (.∈ digits) (c :: dg)) as Hd.
  { apply Forall_isdecimal_digits. by constructor. }
  assert (Forall (.∈ digits) (replicate n "0"%char ++ c :: dg)) as Hd0.
  { apply Forall_app. split; [|done]. apply Forall_replicate. set_solver. }
  assert ("<"%char ∉ lit "### Slide " ++ replicate n "0"%char) as Hlt.
  { rewrite elem_of_app. intros [H|[H _]%elem_of_replicate]; [|done].
    revert H. rewrite list_elem_of_In. cbn. intuition discriminate. }
  assert ("<"%char ∉ lit "### Slide ") as Hlt'.
  { rewrite list_elem_of_In. cbn. intuition discriminate. }
  destruct (parse_script_marker_first
              (lit "### Slide " ++ replicate n "0"%char ++ c :: t)
              (lit "### Slide " ++ replicate n "0"%char)
              (replicate n "0"%char ++ c :: dg) (c :: dg) r) as [HA1 HA2].
  { rewrite app_assoc, sub_tags_app_plain by done.
    rewrite decimal_kept, Ht by done. by rewrite <-app_assoc. }
  { exists (lit " "), (lit "Slide"), (lit " "). rewrite <-!app_assoc.
    split; [done|]. split; [repeat constructor; set_solver|].
    split; [unfold slide_word; repeat (constructor; [set_solver|]);
            constructor|].
    split; [repeat constructor; set_solver|]. split; [done|].
    by destruct n. }
  { done. }
  destruct (parse_script_marker_first (lit "### Slide " ++ c :: t)
              (lit "### Slide ") (c :: dg) (c :: dg) r) as [HB1 HB2].
  { rewrite sub_tags_app_plain by done. by rewrite decimal_kept, Ht. }
  { exists (lit " "), (lit "Slide"), (lit " ").
    split; [done|]. split; [repeat constructor; set_solver|].
    split; [unfold slide_word; repeat (constructor; [set_solver|]);
            constructor|].
    split; [repeat constructor; set_solver|]. by split. }
  { done. }
  pose proof (parse_script_returns _ _ HA) as HcA.
  rewrite HA2 in HA by done. injection HA as <-.
  apply HA1 in HcA as [Hlen Hrest].
  rewrite HB2.
  - f_equal. apply segmented_head; [done|].
    unfold slide_number. cbn. symmetry. apply digits_value_zeros.
  - apply HB1. split; [|done]. rewrite length_app in Hlen. lia.
Qed.

Lemma leading_zeros_same_slide_witness :
  parse_script (lit "### Slide 7" ++ LF :: lit "Hello")
  = inr {[ 7%Z := lit "Hello" ]}.
Proof.
  apply (leading_zeros_same_slide 2 "7" (LF :: lit "Hello")).
  - exact I.
  - vm_compute. reflexivity.
Defined.

Section Consumed.

Implicit Types (s t pre post v w d ds rest : str) (c : ascii).
Implicit Types (p q n a b i j lo hi : nat).
Implicit Types (m : Re.Match) (ms : list Re.Match).

Local Open Scope nat_scope.

Lemma is_marker_extend w d ds :
  is_marker w d → Forall Py.isdecimal ds → is_marker (w ++ ds) (d ++ ds).
Proof.
  intros (h & ws1 & word & ws2 & -> & Hh & H1 & Hw & H2 & Hd & Hne)%is_marker_parts
         Hds.
  apply is_marker_parts. exists h, ws1, word, ws2. rewrite <-!app_assoc.
  repeat split; try done; [by apply Forall_app|by destruct d].
Qed.

(** A marker at the head of a text is matched, with the digits that
    follow it. *)
Lemma marker_at_prefix w d rest :
  is_marker w d → ∃ n d', Re.marker_at (w ++ rest) = Some (n, d').
Proof.
  intros Hw. destruct (Re.span Py.isdecimal rest) as [ds r] eqn:E.
  apply span_spec in E as (-> & Hds & Hr).
  eexists _, _. rewrite app_assoc.
  by apply marker_at_complete; [apply is_marker_extend|].
Qed.

(** A marker in a piece of a text is a marker in the text. *)
Lemma marker_in_substring pre v post p n d :
  Re.marker_at (drop p v) = Some (n, d) →
  p < length v
  ∧ ∃ n' d', Re.marker_at (drop (length pre + p) (pre ++ v ++ post))
             = Some (n', d').
Proof.
  intros H. apply marker_at_Some in H as [Hm [Hn Hle]].
  rewrite length_drop in Hle. split; [lia|].
  rewrite drop_app_add, drop_app_le by lia.
  rewrite <-(take_drop n (drop p v)), <-app_assoc.
  by eapply marker_at_prefix.
Qed.

(** Where a trimmed slice lies in the text. *)
Lemma note_position t a b :
  a ≤ b ≤ length t →
  ∃ pre post,
    t = pre ++ Py.strip (Py.slice t a b) ++ post
    ∧ a ≤ length pre
    ∧ length pre + length (Py.strip (Py.slice t a b)) ≤ b.
Proof.
  intros Hab. unfold Py.strip.
  destruct (lstrip_suffix (Py.slice t a b)) as (ws1 & E1 & _).
  destruct (rstrip_prefix (Py.lstrip (Py.slice t a b))) as (ws2 & E2 & _).
  assert (length (Py.slice t a b) = b - a) as Hlen.
  { unfold Py.slice. rewrite length_take, length_drop. lia. }
  exists (take a t ++ ws1), (ws2 ++ drop b t). split; [|split].
  - rewrite <-app_assoc, (app_assoc _ ws2), <-E2, (app_assoc ws1), <-E1.
    unfold Py.slice.
    rewrite <-(take_drop a t) at 1. f_equal.
    rewrite <-(take_drop (b - a) (drop a t)) at 1. f_equal.
    rewrite drop_drop. f_equal. lia.
  - rewrite length_app, length_take. lia.
  - rewrite E1, E2, !length_app in Hlen.
    rewrite length_app, length_take. lia.
Qed.

Lemma chain_apart lo hi ms i j mi mj :
  chain lo hi ms → ms !! i = Some mi → ms !! j = Some mj → i < j →
  Re.m_end mi ≤ Re.m_start mj.
Proof.
  revert lo i j. induction ms as [|m0 ms IH]; intros lo i j; [done|].
  cbn [chain]. intros (_ & _ & _ & Hc) Hi Hj Hij.
  destruct j as [|j]; [lia|]. cbn in Hj. destruct i as [|i]; cbn in Hi.
  - injection Hi as <-. by destruct (chain_lookup _ _ _ _ _ Hc Hj) as [? _].
  - apply (IH (Re.m_end m0) i j); [done..|lia].
Qed.

(** No match of the text starts in the segment of marker [i]. *)
Lemma segment_clear t lo ms i mi j mj q :
  chain lo (length t) ms → ms !! i = Some mi → ms !! j = Some mj →
  Re.m_end mi ≤ q < segment_end t ms i →
  ¬ (Re.m_start mj ≤ q < Re.m_end mj).
Proof.
  intros Hc Hi Hj [Hq1 Hq2] [Hs He].
  destruct (chain_lookup _ _ _ _ _ Hc Hi) as (_ & Hi1 & _ & _).
  destruct (chain_lookup _ _ _ _ _ Hc Hj) as (_ & Hj1 & _ & _).
  destruct (decide (j = i)) as [->|Hne].
  { assert (mi = mj) as -> by congruence. lia. }
  destruct (decide (j < i)) as [Hlt|Hge].
  { pose proof (chain_apart _ _ _ _ _ _ _ Hc Hj Hi Hlt). lia. }
  unfold segment_end in Hq2.
  destruct (ms !! S i) as [next|] eqn:Hnext.
  - destruct (decide (j = S i)) as [->|Hne'].
    + assert (next = mj) as -> by congruence. lia.
    + destruct (chain_lookup _ _ _ _ _ Hc Hnext) as (_ & Hn1 & _ & _).
      assert (S i < j) as Hlt by lia.
      pose proof (chain_apart _ _ _ _ _ _ _ Hc Hnext Hj Hlt). lia.
  - apply lookup_ge_None in Hnext. apply lookup_lt_Some in Hj. lia.
Qed.

Lemma segment_bounds t lo ms i mi :
  chain lo (length t) ms → ms !! i = Some mi →
  Re.m_end mi ≤ segment_end t ms i ≤ length t.
Proof.
  intros Hc Hi. destruct (chain_lookup _ _ _ _ _ Hc Hi) as (_ & _ & H1 & H2).
  unfold segment_end. destruct (ms !! S i) as [next|] eqn:Hnext; [|lia].
  destruct (chain_lookup _ _ _ _ _ Hc Hnext) as (_ & ? & ? & _).
  specialize (H2 _ eq_refl). lia.
Qed.

End Consumed.

(** X5. The markers are consumed.  No text of the dictionary of
    [parse_script] holds a marker: at no place of a note text does the
    marker pattern match.  There is no dictionary in one case only:
    [parse_script] raises when [int] does not accept the digits of a
    marker. *)
Theorem no_marker_in_notes (s : str) :
  (¬ convertible s ∧ parse_script s = inl Py.ValueError)
  ∨ ∃ d : gmap Z str,
      parse_script s = inr d
      ∧ ∀ k v (p : nat), d !! k = Some v → Re.marker_at (drop p v) = None.
Proof.
  destruct (convertible_cases s) as [Hconv|Hconv];
    [right|left; split; [done|by apply parse_script_raises]].
  set (t := Re.sub_tags s).
  destruct (Re.finditer t) as [|m0 ms0] eqn:E.
  - eexists. split; [by apply parse_script_fallback|].
    intros k v p [_ <-]%lookup_singleton_Some.
    destruct (Re.marker_at (drop p (Py.strip t))) as [[n d]|] eqn:Hm; [|done].
    destruct (substring_strip t) as (pre & post & Ht).
    destruct (marker_in_substring pre _ post _ _ _ Hm) as (_ & n' & d' & Hm').
    rewrite <-Ht in Hm'. apply finditer_covers in Hm' as (m & Hin & _).
    rewrite E in Hin. by apply elem_of_nil in Hin.
  - exists (segmented t (Re.finditer t)).
    split; [apply parse_script_markers; [fold t; by rewrite E|done]|].
    intros k v p (i & mi & Hi & _ & ->)%segmented_lookup_Some.
    unfold note_text.
    destruct (Re.marker_at (drop p _)) as [[n d]|] eqn:Hm; [|done].
    pose proof (finditer_chain t) as Hc.
    pose proof (segment_bounds _ _ _ _ _ Hc Hi) as Hb.
    destruct (note_position t (Re.m_end mi) (segment_end t (Re.finditer t) i))
      as (pre & post & Ht & Hpre & Hlen); [done|].
    destruct (marker_in_substring pre _ post _ _ _ Hm) as (Hp & n' & d' & Hm').
    rewrite <-Ht in Hm'.
    apply finditer_covers in Hm' as (mj & [j Hj]%list_elem_of_lookup & Hq).
    destruct (segment_clear _ _ _ _ _ _ _ (length pre + p) Hc Hi Hj); [lia|done].
Qed.

(** * Properties of the page *)

Section PageFacts.

Variable decode : encoding → list Byte.byte → option str.
Variable Document : list Byte.byte → option (list str).

Implicit Types (pf : option Pptx.Package) (name text : str).
Implicit Types (content : list Byte.byte) (shown : list St.element).
Implicit Types (d : gmap Z str) (l : list encoding).

Lemma join_nil_iff (ps : list str) : join [LF] ps = [] ↔ ps = [] ∨ ps = [[]].
Proof.
  split.
  - destruct ps as [|x [|y ps]]; cbn; [by left|intros ->; by right|].
    by destruct x.
  - by intros [->| ->].
Qed.

Lemma decode_first_Some l content text :
  decode_first decode l content = Some text →
  ∃ (i : nat) e,
    l !! i = Some e ∧ decode e content = Some text
    ∧ ∀ (j : nat) e', (j < i)%nat → l !! j = Some e' →
                      decode e' content = None.
Proof.
  induction l as [|e l IH]; [done|]. cbn.
  destruct (decode e content) as [t|] eqn:E.
  - intros [= ->]. exists 0%nat, e. repeat split; [done|]. lia.
  - intros (i & e0 & Hi & He0 & Hbefore)%IH. exists (S i), e0.
    repeat split; [done..|]. intros [|j] e' Hj; cbn; [by intros [= <-]|].
    apply Hbefore. lia.
Qed.

Lemma decode_first_None l content :
  decode_first decode l content = None ↔ ∀ e, e ∈ l → decode e content = None.
Proof.
  induction l as [|e l IH]; cbn.
  - split; [|done]. by intros _ e ?%elem_of_nil.
  - destruct (decode e content) as [t|] eqn:E.
    + split; [done|]. intros H. rewrite <-E. apply H. left.
    + rewrite IH. split.
      * intros H e' [->|?]%elem_of_cons; auto.
      * intros H e' He'. apply H. by right.
Qed.

Lemma encodings_all (e : encoding) : e ∈ encodings.
Proof. unfold encodings. destruct e; set_solver. Qed.

(** Reading the script shows nothing, or shows one error and gives the
    empty text. *)
Lemma extracted_shown name content text shown :
  extracted decode Document name content = (text, shown) →
  shown = [] ∨ (text = [] ∧ ∃ m, shown = [St.error m]).
Proof.
  unfold extracted, extract_text_from_docx, extract_text_from_txt.
  destruct (endswith name (lit ".docx")).
  - destruct (Document content); intros [= <- <-]; eauto.
  - destruct (decode_first decode encodings content); intros [= <- <-]; eauto.
Qed.

Lemma on_click_eq pf name content :
  on_click decode Document (Some pf) (Some (name, content))
  = let '(script_text, shown) := extracted decode Document name content in
    match script_text with
    | [] => shown ++ [St.error St.script_unreadable]
    | _ =>
        match parse_script script_text with
        | inl e => shown ++ [St.error (St.failed e)]
        | inr script_data =>
            let '((result, count), errors) := process_ppt pf script_data in
            shown ++ ((λ e, St.error (St.processing e)) <$> errors)
              ++ match result with
                 | Some data => [St.success_box count; St.download_button data]
                 | None => []
                 end
        end
    end.
Proof. reflexivity. Qed.

(** What a click shows when both files are there. *)
Lemma on_click_text pf name content text shown :
  extracted decode Document name content = (text, shown) →
  (text = []
   ∧ on_click decode Document (Some pf) (Some (name, content))
     = shown ++ [St.error St.script_unreadable])
  ∨ (text ≠ [] ∧ shown = []
     ∧ ((∃ e, parse_script text = inl e
              ∧ on_click decode Document (Some pf) (Some (name, content))
                = [St.error (St.failed e)])
        ∨ ∃ d, parse_script text = inr d
          ∧ ((∃ prs, pf = Some prs ∧ Pptx.writable prs = true
                     ∧ ¬ write_fails d (Pptx.slides prs)
                     ∧ on_click decode Document (Some pf)
                         (Some (name, content))
                       = [St.success_box
                            (Z.of_nat (size (entries_in_range
                                               (length (Pptx.slides prs)) d)));
                          St.download_button
                            (notes_after d (Pptx.slides prs))])
             ∨ (¬ goes_through pf d
                ∧ ∃ e, on_click decode Document (Some pf)
                         (Some (name, content))
                       = [St.error (St.processing e)])))).
Proof.
  intros Hext. rewrite on_click_eq, Hext.
  destruct text as [|c text]; [by left|]. right. split; [done|].
  destruct (extracted_shown _ _ _ _ Hext) as [->|[? _]]; [|done].
  split; [done|].
  destruct (parse_script (c :: text)) as [e|d] eqn:Hd; [left; by exists e|].
  right. exists d. split; [done|].
  destruct (process_ppt_cases pf d) as [(prs & -> & Hw & Hf & E)|(e & _ & E)].
  - left. exists prs. by rewrite E.
  - right. split; [|exists e; by rewrite E].
    intros (prs & -> & Hw & Hf). rewrite process_ppt_ok in E by done.
    discriminate.
Qed.

End PageFacts.

Section BlankUpload.

Implicit Types (s : str) (slides : list (option str)).

Lemma parse_script_blank s :
  Forall Py.isspace s → parse_script s = inr {[ 1 := [] ]}.
Proof.
  intros Hs. pose proof (sub_tags_tag_free s (blank_tag_free s Hs)) as Ht.
  rewrite parse_script_fallback; rewrite Ht.
  - unfold Py.strip. by rewrite blank_lstrip.
  - by apply blank_finditer_from.
Qed.

Lemma notes_after_first slides (v : str) :
  notes_after {[ 1 := v ]} slides
  = <[0%nat := Some (Pptx.written v)]> slides.
Proof.
  apply list_eq. intros j. unfold notes_after. rewrite list_lookup_imap.
  destruct j as [|j].
  - rewrite lookup_singleton_eq. destruct slides; [done|]. done.
  - rewrite lookup_singleton_ne by lia.
    rewrite list_lookup_insert_ne by done. by destruct (slides !! S j).
Qed.

Lemma entries_in_range_first slides (v : str) (old : option str) :
  slides !! 0%nat = Some old →
  size (entries_in_range (length slides) ({[ 1 := v ]} : gmap Z str)) = 1%nat.
Proof.
  intros H%lookup_lt_Some. unfold entries_in_range.
  rewrite map_filter_singleton_True; [apply map_size_singleton|].
  unfold in_range. cbn. lia.
Qed.

End BlankUpload.

(** X10. The text of a text file.  [extract_text_from_txt] returns the
    text of the first of the decodings utf-8, gbk, gb2312, utf-16, in
    this order, that does not raise, and shows nothing; when all four
    raise it shows one error and returns the empty text. *)
Theorem txt_first_decoder (decode : encoding → list Byte.byte → option str)
    (content : list Byte.byte) :
  let '(text, shown) := extract_text_from_txt decode content in
  (shown = []
   ∧ ∃ (i : nat) e,
       encodings !! i = Some e ∧ decode e content = Some text
       ∧ ∀ (j : nat) e', (j < i)%nat → encodings !! j = Some e' →
                         decode e' content = None)
  ∨ (text = [] ∧ shown = [St.error St.encoding_unknown]
     ∧ ∀ e, decode e content = None).
Proof.
  unfold extract_text_from_txt.
  destruct (decode_first decode encodings content) as [text|] eqn:E.
  - left. split; [done|]. by apply decode_first_Some.
  - right. repeat split; [done..|]. intros e.
    eapply decode_first_None; [exact E|apply encodings_all].
Qed.

(** X12. What a click shows.  Whatever the uploads, a click shows either
    the success box with the download button, and then no error, or
    errors only, one or two of them. *)
Theorem click_outcome (decode : encoding → list Byte.byte → option str)
    (Document : list Byte.byte → option (list str))
    (pptx_file : option (option Pptx.Package))
    (script_file : option (str * list Byte.byte)) :
  let shown := on_click decode Document pptx_file script_file in
  (∃ n data, shown = [St.success_box n; St.download_button data])
  ∨ (errors_only shown ∧ (length shown ≤ 2)%nat).
Proof.
  assert (∀ m, errors_only [St.error m]) as H1.
  { intros m. split; [done|]. repeat constructor. by exists m. }
  cbv zeta.
  destruct pptx_file as [pf|]; [|right; split; [apply H1|cbn; lia]].
  destruct script_file as [[name content]|];
    [|right; split; [apply H1|cbn; lia]].
  destruct (extracted decode Document name content) as [text shown] eqn:Hext.
  destruct (on_click_text decode Document pf name content text shown Hext)
    as [[-> ->]|(_ & -> & [(e & _ & ->)
                          |(d & _ & [(prs & _ & _ & _ & ->)|(_ & e & ->)])])].
  - right. destruct (extracted_shown _ _ _ _ _ _ Hext) as [->|[_ [m ->]]].
    + split; [apply H1|cbn; lia].
    + split; [|cbn; lia]. split; [done|]. repeat constructor; by eexists.
  - right. split; [apply H1|cbn; lia].
  - left. by eexists _, _.
  - right. split; [apply H1|cbn; lia].
Qed.



(** X14. A blank script erases the notes of slide 1.  A script file whose
    text is not empty and is made of blanks only, as a text file of line
    feeds or a docx of two empty paragraphs, passes the test of the page
    for an empty text: on a presentation that can be written and whose
    first slide has notes, the click succeeds with the count 1 and the
    notes of slide 1 are replaced by the empty text. *)
Theorem blank_upload_erases (decode : encoding → list Byte.byte → option str)
    (Document : list Byte.byte → option (list str))
    (prs : Pptx.Package) (name : str) (content : list Byte.byte)
    (old : str) :
  let text := fst (extracted decode Document name content) in
  text ≠ [] → Forall Py.isspace text →
  Pptx.writable prs = true → Pptx.slides prs !! 0%nat = Some (Some old) →
  on_click decode Document (Some (Some prs)) (Some (name, content))
  = [St.success_box 1;
     St.download_button (<[0%nat := Some []]> (Pptx.slides prs))].
Proof.
  intros text Hne Hs Hw Hold. subst text.
  destruct (extracted decode Document name content) as [text shown] eqn:Hext.
  cbn [fst] in Hne, Hs.
  assert (¬ write_fails {[ 1 := [] ]} (Pptx.slides prs)) as Hf.
  { intros (k & v & [<- _]%lookup_singleton_Some & _ & Hm).
    unfold frame_missing in Hm.
    change (Z.to_nat (1 - 1)) with 0%nat in Hm. congruence. }
  destruct (on_click_text decode Document (Some prs) name content text shown
              Hext)
    as [[-> _]|(_ & _ & [(e & He & _)
                        |(d & Hd & [(prs' & [= <-] & _ & _ & ->)|(Hno & _)])])].
  - done.
  - by rewrite parse_script_blank in He.
  - rewrite parse_script_blank in Hd by done. injection Hd as <-.
    by erewrite entries_in_range_first, notes_after_first.
  - rewrite parse_script_blank in Hd by done. injection Hd as <-.
    destruct Hno. by exists prs.
Qed.

Lemma blank_upload_erases_witness :
  on_click (λ _ _, None) (λ _, Some [[]; []])
    (Some (deck [Some (lit "old notes"); None])) (Some (lit "talk.docx", []))
  = [St.success_box 1; St.download_button [Some []; None]].
Proof.
  apply (blank_upload_erases (λ _ _, None) (λ _, Some [[]; []])
           {| Pptx.slides := [Some (lit "old notes"); None];
              Pptx.writable := true |}
           (lit "talk.docx") [] (lit "old notes")).
  - vm_compute. discriminate.
  - vm_compute. by repeat constructor.
  - reflexivity.
  - reflexivity.
Defined.

(** X15. When a docx is turned down.  For a script whose name ends in
    [.docx], the page shows that the script cannot be read, and goes no
    further, exactly when python-docx cannot open the file, when the
    document has no paragraph, or when it has one paragraph that is
    empty; in the first case the error of [extract_text_from_docx] comes
    before it. *)
Theorem docx_rejected_iff (decode : encoding → list Byte.byte → option str)
    (Document : list Byte.byte → option (list str))
    (pf : option Pptx.Package) (name : str) (content : list Byte.byte) :
  endswith name (lit ".docx") = true →
  (St.error St.script_unreadable
     ∈ on_click decode Document (Some pf) (Some (name, content))
   ↔ Document content = None ∨ Document content = Some []
     ∨ Document content = Some [[]])
  ∧ (Document content = None →
     on_click decode Document (Some pf) (Some (name, content))
     = [St.error St.docx_unreadable; St.error St.script_unreadable]).
Proof.
  intros Hname.
  assert (extracted decode Document name content
          = extract_text_from_docx Document content) as Hext
    by (unfold extracted; by rewrite Hname).
  unfold extract_text_from_docx in Hext.
  destruct (Document content) as [ps|] eqn:Hdoc.
  - split; [|done].
    destruct (on_click_text decode Document pf name content _ _ Hext)
      as [[Hnil ->]|(Hne & _ & [(e & _ & ->)
                               |(d & _ & [(prs & _ & _ & _ & ->)
                                         |(_ & e & ->)])])].
    + split; [intros _|intros _; set_solver].
      apply join_nil_iff in Hnil as [->| ->]; auto.
    + split; [set_solver|]. intros [?|[[= ->]|[= ->]]]; done.
    + split; [set_solver|]. intros [?|[[= ->]|[= ->]]]; done.
    + split; [set_solver|]. intros [?|[[= ->]|[= ->]]]; done.
  - destruct (on_click_text decode Document pf name content _ _ Hext)
      as [[_ ->]|(Hne & _)]; [|done].
    split; [|done]. split; [by left|]. set_solver.
Qed.

Lemma docx_rejected_iff_witness :
  on_click (λ _ _, None) (λ _, None) (Some None) (Some (lit "talk.docx", []))
  = [St.error St.docx_unreadable; St.error St.script_unreadable].
Proof.
  refine (proj2 (docx_rejected_iff (λ _ _, None) (λ _, None) None
                   (lit "talk.docx") [] _) _).
  - reflexivity.
  - reflexivity.
Defined.
